(** * The semantic-search edge function and the [match_members] RPC

    A shallow embedding of [supabase/functions/semantic-search/index.ts]
    (the [Deno.serve] handler, [performSemanticSearch], [performTextSearch]),
    of the SQL function [match_members] and the trigger
    [generate_member_embedding] from the migration
    [20250626110138_young_moon.sql], and of the search page's
    [performSearch], [handleFileSelect] and [clearFileSelection].

    JavaScript numbers and PostgreSQL [float8] values are IEEE doubles:
    finite values (modelled as exact rationals [Q]), the two infinities
    and NaN.  Strings are UTF-8 byte strings; JavaScript's [length] counts
    their UTF-16 code units.  The hosted services (embedding model,
    pgvector's [<=>], PostgREST) are an explicit [Backend] record, except
    for PostgREST's reading of the [or] filter and of [limit], which is
    written out; the calls the handler makes are recorded in a trace
    threaded through a small state-and-error monad. *)

From Stdlib Require Import String Ascii List Bool ZArith QArith Qminmax Lia.
From Stdlib Require Import Sorted Permutation Lqa.
Import ListNotations.
Open Scope string_scope.

(* ------------------------------------------------------------------ *)
(** ** Numbers *)

(** An IEEE double: a finite value, an infinity, or NaN. *)
Inductive Num :=
| Fin (q : Q)
| PosInf
| NegInf
| NaN.

Module F64.

(** [ToBoolean]: 0 and NaN are falsy. *)
Definition truthy (x : Num) : bool :=
  match x with
  | Fin q => negb (Qeq_bool q 0)
  | NaN => false
  | _ => true
  end.

(** [Math.min(x, y)] *)
Definition min (x y : Num) : Num :=
  match x, y with
  | NaN, _ | _, NaN => NaN
  | NegInf, _ | _, NegInf => NegInf
  | PosInf, z | z, PosInf => z
  | Fin a, Fin b => Fin (if Qle_bool a b then a else b)
  end.

(** [x - y] *)
Definition sub (x y : Num) : Num :=
  match x, y with
  | Fin a, Fin b => Fin (a - b)
  | NaN, _ | _, NaN => NaN
  | PosInf, PosInf | NegInf, NegInf => NaN
  | PosInf, _ | _, NegInf => PosInf
  | NegInf, _ | _, PosInf => NegInf
  end.

(** [x > 0] *)
Definition gt0 (x : Num) : bool :=
  match x with
  | Fin q => negb (Qle_bool q 0)
  | PosInf => true
  | _ => false
  end.

(** JavaScript's [x >= y]: false as soon as one side is NaN. *)
Definition ge (x y : Num) : bool :=
  match x, y with
  | NaN, _ | _, NaN => false
  | PosInf, _ | _, NegInf => true
  | NegInf, _ | _, PosInf => false
  | Fin a, Fin b => Qle_bool b a
  end.

(** PostgreSQL's order on [float8]: NaN is above every other value, so
    [NaN >= x] holds and NaN sorts last. *)
Definition pg_rank (x : Num) : nat :=
  match x with NegInf => 0 | Fin _ => 1 | PosInf => 2 | NaN => 3 end.

Definition pg_le (x y : Num) : bool :=
  match x, y with
  | Fin a, Fin b => Qle_bool a b
  | _, _ => (pg_rank x <=? pg_rank y)%nat
  end.

(** [JSON.stringify] of a number: a non-finite one is written [null]. *)
Definition to_json (x : Num) : option Q :=
  match x with Fin q => Some q | _ => None end.

(** The integer a rational is, if it is one. *)
Definition to_int (q : Q) : option Z :=
  let r := Qred q in
  if (Qden r =? 1)%positive then Some (Qnum r) else None.

(** The integer written by [`${x}`], if [x] is one. *)
Definition int_param (x : Num) : option Z :=
  match x with Fin q => to_int q | _ => None end.

End F64.

(* ------------------------------------------------------------------ *)
(** ** JavaScript string helpers *)

Module JS.

(** UTF-16 code units of the character a UTF-8 byte starts: none for a
    continuation byte, two for the lead byte of a 4-byte sequence. *)
Definition utf16_units (c : ascii) : nat :=
  let n := nat_of_ascii c in
  if (n <? 128)%nat then 1
  else if (n <? 192)%nat then 0
  else if (n <? 240)%nat then 1
  else 2.

(** [s.length] *)
Fixpoint length (s : string) : nat :=
  match s with
  | EmptyString => 0
  | String c s' => utf16_units c + length s'
  end.

(** ASCII lowering, as [String.prototype.toLowerCase] on ASCII text. *)
Definition lower_char (c : ascii) : ascii :=
  let n := nat_of_ascii c in
  if (65 <=? n)%nat && (n <=? 90)%nat then ascii_of_nat (n + 32) else c.

Fixpoint toLowerCase (s : string) : string :=
  match s with
  | EmptyString => EmptyString
  | String c s' => String (lower_char c) (toLowerCase s')
  end.

(** [s.split(sep)] for a one-character separator: every occurrence
    cuts, so empty pieces are kept and [""].split(' ') is [[""]]. *)
Fixpoint split_aux (sep : ascii) (s cur : string) : list string :=
  match s with
  | EmptyString => [cur]
  | String c s' =>
      if Ascii.eqb c sep then cur :: split_aux sep s' EmptyString
      else split_aux sep s' (cur ++ String c EmptyString)
  end.

Definition split (sep : ascii) (s : string) : list string :=
  split_aux sep s EmptyString.

(** [hay.includes(needle)]. *)
Fixpoint includes (hay needle : string) : bool :=
  prefix needle hay ||
  match hay with
  | EmptyString => false
  | String _ hay' => includes hay' needle
  end.

(** [parts.join(sep)]. *)
Fixpoint join (sep : string) (parts : list string) : string :=
  match parts with
  | [] => EmptyString
  | [p] => p
  | p :: ps => p ++ sep ++ join sep ps
  end.

(** White space removed by [String.prototype.trim] (its ASCII part). *)
Definition is_ws (c : ascii) : bool :=
  let n := nat_of_ascii c in
  (n =? 32)%nat || ((9 <=? n)%nat && (n <=? 13)%nat).

Fixpoint trim_start (s : string) : string :=
  match s with
  | EmptyString => EmptyString
  | String c s' => if is_ws c then trim_start s' else s
  end.

Fixpoint rev_str (s : string) : string :=
  match s with
  | EmptyString => EmptyString
  | String c s' => rev_str s' ++ String c EmptyString
  end.

Definition trim (s : string) : string :=
  rev_str (trim_start (rev_str (trim_start s))).

(** [Math.min(score, 1.0)] on the rationals. *)
Definition min1 (q : Q) : Q := if Qle_bool q 1 then q else 1.

End JS.

(* ------------------------------------------------------------------ *)
(** ** Data model *)

(** A row of the [members] table joined with its team's name. *)
Record MemberRow := mkMemberRow {
  m_id : Z;
  m_name : string;
  m_email : string;
  m_role : string;
  m_description : option string;
  m_skills : option (list string);
  m_profile_picture : option string;
  m_team : option string;
  m_embedding : option (list Q)
}.

(** [SearchResult]: the member projection plus [similarity_score].  A
    non-finite [match_score] arrives as the JSON string NaN or Infinity,
    which the arithmetic and comparisons of the code treat as the number;
    it is written here as that number. *)
Record SearchResult := mkSearchResult {
  r_id : Z;
  r_name : string;
  r_email : string;
  r_role : string;
  r_description : option string;
  r_skills : list string;
  r_profile_picture : option string;
  r_team : option string;
  similarity_score : Num
}.

(** A row returned by [match_members]; both columns are [float8]. *)
Record MatchRow := mkMatchRow {
  mr_member : MemberRow;
  match_score : Num;
  distance : Num
}.

(** The hosted services the function talks to. *)
Record Backend := mkBackend {
  (** [Supabase.ai.Session('gte-small').run]: [None] when it throws *)
  be_embed : string -> option (list Q);
  (** pgvector's cosine distance [<=>], a [float8]: NaN when one of the
      vectors is all zeros *)
  be_dist : list Q -> list Q -> Num;
  (** the [rpc('match_members')] call answers with an [error] *)
  be_rpc_error : bool;
  (** the PostgREST select on [members] answers with an [error] *)
  be_select_error : bool;
  (** PostgREST ignores a [limit] parameter that is not an integer (true)
      or rejects the request (false) *)
  be_limit_lenient : bool;
  (** the rows of [members] *)
  be_members : list MemberRow
}.

(** Calls to the hosted services, recorded in order: the RPC's JSON
    [match_count] ([None] is [null]) and the select's [limit]. *)
Inductive Call :=
| CallEmbed (text : string)
| CallRpc (match_count : option Q) (similarity_threshold : Q)
| CallSelect (or_filter : option string) (limit : Num).

(** Exceptions carry their message. *)
Inductive Result (A : Type) :=
| Ok (a : A)
| Err (msg : string).
Arguments Ok {A} a.
Arguments Err {A} msg.

(** The state-and-error monad threading the trace of calls. *)
Definition M (A : Type) := list Call -> Result A * list Call.

Definition ret {A} (a : A) : M A := fun tr => (Ok a, tr).
Definition throw {A} (msg : string) : M A := fun tr => (Err msg, tr).
Definition bind {A B} (m : M A) (k : A -> M B) : M B :=
  fun tr => match m tr with
            | (Ok a, tr') => k a tr'
            | (Err e, tr') => (Err e, tr')
            end.
Definition emit (c : Call) : M unit := fun tr => (Ok tt, app tr [c]).
(** [try { m } catch (e) { h e }] *)
Definition catch {A} (m : M A) (h : string -> M A) : M A :=
  fun tr => match m tr with
            | (Ok a, tr') => (Ok a, tr')
            | (Err e, tr') => h e tr'
            end.

Notation "x <- m ;; k" := (bind m (fun x => k))
  (at level 61, m at next level, right associativity).
Notation "m ;;; k" := (bind m (fun _ => k))
  (at level 61, right associativity).

(* ------------------------------------------------------------------ *)
(** ** Sorting *)

(** Stable insertion: [x] goes before the first [y] with [le x y]. *)
Fixpoint insert_by {A} (le : A -> A -> bool) (x : A) (l : list A) : list A :=
  match l with
  | [] => [x]
  | y :: l' => if le x y then x :: y :: l' else y :: insert_by le x l'
  end.

(** A stable sort: [ORDER BY] in SQL and [Array.prototype.sort]
    with a consistent comparator. *)
Fixpoint sort_by {A} (le : A -> A -> bool) (l : list A) : list A :=
  match l with
  | [] => []
  | x :: l' => insert_by le x (sort_by le l')
  end.

(* ------------------------------------------------------------------ *)
(** ** [match_members] (SQL, migration 20250626110138_young_moon.sql) *)

Module SQL.

(** [LIMIT n]: [LIMIT NULL] is no limit, a negative count is an error. *)
Definition limit {A} (n : option Z) (l : list A) : option (list A) :=
  match n with
  | None => Some l
  | Some n => if (n <? 0)%Z then None else Some (firstn (Z.to_nat n) l)
  end.

(** [1 - d] on [float8] *)
Definition one_minus (d : Num) : Num := F64.sub (Fin 1) d.

(** The [WHERE] clause and the selected columns of one member:
    [m.embedding IS NOT NULL AND 1 - (m.embedding <=> q) >= t]. *)
Definition match_row (be : Backend) (q : list Q) (t : Q) (m : MemberRow)
  : list MatchRow :=
  match m_embedding m with
  | None => []
  | Some e =>
      let d := be_dist be e q in
      if F64.pg_le (Fin t) (one_minus d) then [mkMatchRow m (one_minus d) d] else []
  end.

(** [ORDER BY m.embedding <=> query_embedding] (ascending, NaN last). *)
Definition by_distance (a b : MatchRow) : bool := F64.pg_le (distance a) (distance b).

Definition match_members (be : Backend) (query_embedding : list Q)
    (match_count : option Z) (similarity_threshold : Q) : option (list MatchRow) :=
  limit match_count
    (sort_by by_distance (flat_map (match_row be query_embedding similarity_threshold)
                                   (be_members be))).

(** The declared defaults of the function's parameters. *)
Definition default_match_count : Z := 10.
Definition default_similarity_threshold : Q := 1 # 10.

End SQL.

(* ------------------------------------------------------------------ *)
(** ** [generateEmbedding] and [performSemanticSearch] *)

Definition generateEmbedding (be : Backend) (text : string) : M (list Q) :=
  emit (CallEmbed text) ;;;
  match be_embed be text with
  | Some v => ret v
  | None => throw "Failed to generate embedding"
  end.

(** [match.x || d]: JavaScript's falsy values of the columns involved.
    A non-finite [match_score] arrives as a (truthy) JSON string, so only
    a score of 0 is replaced, by 0. *)
Definition or_zero (x : Num) : Num :=
  match x with
  | Fin q => if Qeq_bool q 0 then Fin 0 else x
  | _ => x
  end.
Definition team_or_undefined (t : option string) : option string :=
  match t with
  | Some EmptyString => None
  | _ => t
  end.

(** The [matches.map(...)] of [performSemanticSearch]. *)
Definition transform_match (mr : MatchRow) : SearchResult :=
  let m := mr_member mr in
  mkSearchResult (m_id m) (m_name m) (m_email m) (m_role m) (m_description m)
    (match m_skills m with Some s => s | None => [] end)
    (m_profile_picture m) (team_or_undefined (m_team m))
    (or_zero (match_score mr)).

(** The threshold [performSemanticSearch] passes to the RPC. *)
Definition semantic_threshold : Q := 1 # 10.

(** PostgREST running [match_members] on the JSON arguments: [null] for
    [match_count] is SQL [NULL], a fractional number does not read as an
    [integer]; [None] is an error answer. *)
Definition rpc_call (be : Backend) (qe : list Q) (match_count : option Q) (t : Q)
  : option (list MatchRow) :=
  match match_count with
  | None => SQL.match_members be qe None t
  | Some q =>
      match F64.to_int q with
      | Some n => SQL.match_members be qe (Some n) t
      | None => None
      end
  end.

Definition rpc_match_members (be : Backend) (qe : list Q) (limit : Num)
    (t : Q) : M (list MatchRow) :=
  emit (CallRpc (F64.to_json limit) t) ;;;
  if be_rpc_error be then throw "match_members failed"
  else match rpc_call be qe (F64.to_json limit) t with
       | Some rows => ret rows
       | None => throw "match_members rejected its arguments"
       end.

Definition performSemanticSearch (be : Backend) (query : string) (limit : Num)
  : M (list SearchResult) :=
  queryEmbedding <- generateEmbedding be query ;;
  matches <- rpc_match_members be queryEmbedding limit semantic_threshold ;;
  match matches with
  | [] => ret []
  | _ => ret (map transform_match matches)
  end.

(* ------------------------------------------------------------------ *)
(** ** [performTextSearch] *)

(** [query.toLowerCase().split(' ').filter(term => term.length > 2)] *)
Definition searchTerms (query : string) : list string :=
  filter (fun term => (2 <? JS.length term)%nat)
         (JS.split " "%char (JS.toLowerCase query)).

(** The four PostgREST conditions built for one term. *)
Definition term_conditions (term : string) : list string :=
  [ "name.ilike.%" ++ term ++ "%";
    "role.ilike.%" ++ term ++ "%";
    "description.ilike.%" ++ term ++ "%";
    "skills.cs.{" ++ term ++ "}" ].

Definition orConditions (terms : list string) : list string :=
  flat_map term_conditions terms.

(** The argument of [.or(...)], when the code calls it. *)
Definition or_filter (terms : list string) : option string :=
  match orConditions terms with
  | [] => None
  | cs => Some (JS.join "," cs)
  end.

(** How PostgREST reads the [or=(...)] parameter postgrest-js sends for
    [.or(f)], and the [limit] parameter, and how PostgreSQL evaluates the
    conditions on a row. *)
Module PostgREST.

Definition dq_char : ascii := ascii_of_nat 34.

(** [s] cut before its first character satisfying [stop]. *)
Fixpoint read_until (stop : ascii -> bool) (s : string) : string * string :=
  match s with
  | EmptyString => (EmptyString, EmptyString)
  | String c s' =>
      if stop c then (EmptyString, s)
      else let (a, b) := read_until stop s' in (String c a, b)
  end.

Definition value_end (c : ascii) : bool := Ascii.eqb c "," || Ascii.eqb c ")".

(** [pQuotedValue] after its opening quote: [\] escapes a character. *)
Fixpoint quoted_body (s : string) : option (string * string) :=
  match s with
  | EmptyString => None
  | String c s' =>
      if Ascii.eqb c dq_char then Some (EmptyString, s')
      else if Ascii.eqb c "\" then
        match s' with
        | EmptyString => None
        | String c' s'' =>
            match quoted_body s'' with
            | Some (a, b) => Some (String c' a, b)
            | None => None
            end
        end
      else match quoted_body s' with
           | Some (a, b) => Some (String c a, b)
           | None => None
           end
  end.

(** [pPgArray]: [{], characters other than braces, [}]. *)
Definition pg_array (s : string) : option (string * string) :=
  match s with
  | String c s' =>
      if Ascii.eqb c "{" then
        let (body, rest) := read_until (fun d => Ascii.eqb d "{" || Ascii.eqb d "}") s' in
        match rest with
        | String d rest' =>
            if Ascii.eqb d "}" then Some ("{" ++ body ++ "}", rest') else None
        | EmptyString => None
        end
      else None
  | EmptyString => None
  end.

(** [pLogicSingleVal]: a quoted value followed by [,] or [)] or the end,
    else a [{...}] array, else the characters up to [,] or [)]. *)
Definition single_val (s : string) : string * string :=
  let fallback :=
    match pg_array s with
    | Some p => p
    | None => read_until value_end s
    end in
  match s with
  | String c s' =>
      if Ascii.eqb c dq_char then
        match quoted_body s' with
        | Some (v, EmptyString) => (v, EmptyString)
        | Some (v, String d rest) =>
            if value_end d then (v, String d rest) else fallback
        | None => fallback
        end
      else fallback
  | EmptyString => fallback
  end.

(** One condition [field.operator.value]. *)
Record Cond := mkCond { c_field : string; c_op : string; c_value : string }.

Definition parse_cond (s : string) : option (Cond * string) :=
  let (f, r1) := read_until (Ascii.eqb ".") s in
  match r1 with
  | EmptyString => None
  | String _ r1' =>
      let (op, r2) := read_until (Ascii.eqb ".") r1' in
      match r2 with
      | EmptyString => None
      | String _ r2' => let (v, r3) := single_val r2' in Some (mkCond f op v, r3)
      end
  end.

(** The conditions, separated by [,]; anything else after a value (a
    [)] closing the list early) is a parse error. *)
Fixpoint parse_conds (fuel : nat) (s : string) : option (list Cond) :=
  match fuel with
  | O => None
  | S fuel' =>
      match parse_cond s with
      | None => None
      | Some (c, EmptyString) => Some [c]
      | Some (c, String d rest) =>
          if Ascii.eqb d "," then
            match parse_conds fuel' rest with
            | Some cs => Some (c :: cs)
            | None => None
            end
          else None
      end
  end.

Definition parse_or (f : string) : option (list Cond) :=
  parse_conds (S (String.length f)) f.

(** PostgreSQL's [array_in] for a one-dimensional [text[]] literal:
    elements separated by [,], double-quoted or bare, [\] escaping a
    character; white space around a bare element is dropped, and a bare
    [NULL] (in any case) is the null element. *)
Definition arr_space (c : ascii) : bool := JS.is_ws c.

Inductive AState :=
| AFirst (acc : list (option string))
| AStart (acc : list (option string))
| AUnq (acc : list (option string)) (cur pend : string) (esc escaping : bool)
| AQuo (acc : list (option string)) (cur : string) (escaping : bool)
| AAfter (acc : list (option string))
| ADone (acc : list (option string)).

Definition bare_element (cur : string) (esc : bool) : option string :=
  if negb esc && String.eqb (JS.toLowerCase cur) "null" then None else Some cur.

Definition element_start (acc : list (option string)) (c : ascii) : option AState :=
  if arr_space c then Some (AStart acc)
  else if Ascii.eqb c dq_char then Some (AQuo acc EmptyString false)
  else if Ascii.eqb c "{" || Ascii.eqb c "," || Ascii.eqb c "}" then None
  else if Ascii.eqb c "\" then Some (AUnq acc EmptyString EmptyString true true)
  else Some (AUnq acc (String c EmptyString) EmptyString false false).

Definition arr_step (st : AState) (c : ascii) : option AState :=
  match st with
  | AFirst acc =>
      if arr_space c then Some (AFirst acc)
      else if Ascii.eqb c "}" then Some (ADone acc)
      else element_start acc c
  | AStart acc => element_start acc c
  | AUnq acc cur pend esc escaping =>
      if escaping then Some (AUnq acc (cur ++ pend ++ String c EmptyString) EmptyString esc false)
      else if Ascii.eqb c "\" then Some (AUnq acc cur pend true true)
      else if Ascii.eqb c "," then Some (AStart (acc ++ [bare_element cur esc]))
      else if Ascii.eqb c "}" then Some (ADone (acc ++ [bare_element cur esc]))
      else if Ascii.eqb c dq_char || Ascii.eqb c "{" then None
      else if arr_space c then Some (AUnq acc cur (pend ++ String c EmptyString) esc false)
      else Some (AUnq acc (cur ++ pend ++ String c EmptyString) EmptyString esc false)
  | AQuo acc cur escaping =>
      if escaping then Some (AQuo acc (cur ++ String c EmptyString) false)
      else if Ascii.eqb c "\" then Some (AQuo acc cur true)
      else if Ascii.eqb c dq_char then Some (AAfter (acc ++ [Some cur]))
      else Some (AQuo acc (cur ++ String c EmptyString) false)
  | AAfter acc =>
      if arr_space c then Some (AAfter acc)
      else if Ascii.eqb c "," then Some (AStart acc)
      else if Ascii.eqb c "}" then Some (ADone acc)
      else None
  | ADone acc => if arr_space c then Some (ADone acc) else None
  end.

Fixpoint arr_scan (s : string) (st : AState) : option (list (option string)) :=
  match s with
  | EmptyString => match st with ADone acc => Some acc | _ => None end
  | String c s' =>
      match arr_step st c with
      | Some st' => arr_scan s' st'
      | None => None
      end
  end.

Definition parse_array (v : string) : option (list (option string)) :=
  match v with
  | String c s => if Ascii.eqb c "{" then arr_scan s (AFirst []) else None
  | EmptyString => None
  end.

(** [*] stands for [%] in PostgREST's [like] and [ilike] patterns. *)
Fixpoint star_to_percent (s : string) : string :=
  match s with
  | EmptyString => EmptyString
  | String c s' => String (if Ascii.eqb c "*" then "%"%char else c) (star_to_percent s')
  end.

(** A UTF-8 continuation byte. *)
Definition cont_byte (c : ascii) : bool :=
  let n := nat_of_ascii c in (128 <=? n)%nat && (n <? 192)%nat.

Fixpoint skip_cont (s : string) : string :=
  match s with
  | EmptyString => EmptyString
  | String c s' => if cont_byte c then skip_cont s' else s
  end.

(** [s LIKE p]: [%] matches any characters, [_] one character, [\]
    makes the next pattern character literal. *)
Fixpoint like (p s : string) {struct p} : bool :=
  match p with
  | EmptyString => match s with EmptyString => true | String _ _ => false end
  | String c p' =>
      if Ascii.eqb c "%" then
        (fix any (s : string) : bool :=
           like p' s || match s with EmptyString => false | String _ s' => any s' end) s
      else if Ascii.eqb c "_" then
        match s with EmptyString => false | String _ s' => like p' (skip_cont s') end
      else if Ascii.eqb c "\" then
        match p' with
        | EmptyString => false
        | String e p'' =>
            match s with
            | EmptyString => false
            | String d s' => Ascii.eqb d e && like p'' s'
            end
        end
      else
        match s with
        | EmptyString => false
        | String d s' => Ascii.eqb d c && like p' s'
        end
  end.

(** A pattern ending in a lone [\] is an error. *)
Fixpoint like_ok (p : string) : bool :=
  match p with
  | EmptyString => true
  | String c p' =>
      if Ascii.eqb c "\" then
        match p' with EmptyString => false | String _ p'' => like_ok p'' end
      else like_ok p'
  end.

(** The columns the code filters on: text ones and the [text[]] one. *)
Inductive Column :=
| ColText (get : MemberRow -> option string)
| ColArray (get : MemberRow -> option (list string)).

Definition column (f : string) : option Column :=
  if String.eqb f "name" then Some (ColText (fun m => Some (m_name m)))
  else if String.eqb f "role" then Some (ColText (fun m => Some (m_role m)))
  else if String.eqb f "description" then Some (ColText m_description)
  else if String.eqb f "skills" then Some (ColArray m_skills)
  else None.

(** [x ILIKE p] lowers both sides ([lower] as [toLowerCase] here), and
    [arr @> elems] holds when every element is in [arr]; a [NULL] column
    or a null element gives [NULL], which the [WHERE] clause rejects. *)
Definition compile (c : Cond) : option (MemberRow -> bool) :=
  match column (c_field c) with
  | Some (ColText get) =>
      if String.eqb (c_op c) "ilike" then
        let pat := star_to_percent (c_value c) in
        if like_ok pat then
          Some (fun m => match get m with
                         | Some v => like (JS.toLowerCase pat) (JS.toLowerCase v)
                         | None => false
                         end)
        else None
      else None
  | Some (ColArray get) =>
      if String.eqb (c_op c) "cs" then
        match parse_array (c_value c) with
        | Some elems =>
            Some (fun m => match get m with
                           | Some l => forallb (fun e => match e with
                                                         | Some x => existsb (String.eqb x) l
                                                         | None => false
                                                         end) elems
                           | None => false
                           end)
        | None => None
        end
      else None
  | None => None
  end.

Fixpoint compile_all (cs : list Cond) : option (list (MemberRow -> bool)) :=
  match cs with
  | [] => Some []
  | c :: cs' =>
      match compile c, compile_all cs' with
      | Some p, Some ps => Some (p :: ps)
      | _, _ => None
      end
  end.

(** The row filter of [or=(f)]; [None] when the request is rejected. *)
Definition row_filter (f : string) : option (MemberRow -> bool) :=
  match parse_or f with
  | None => None
  | Some cs =>
      match compile_all cs with
      | Some ps => Some (fun m => existsb (fun p => p m) ps)
      | None => None
      end
  end.

(** [limit=${n}]: an integer applies (a negative one is rejected); any
    other text is ignored or rejected, as [be_limit_lenient] says. *)
Definition limit_rows {A} (be : Backend) (n : Num) (rows : list A) : option (list A) :=
  match F64.int_param n with
  | Some k => SQL.limit (Some k) rows
  | None => if be_limit_lenient be then Some rows else None
  end.

Definition by_name (a b : MemberRow) : bool := String.leb (m_name a) (m_name b).

(** [.order('name')] and [.limit(n)]: ordered, then limited. *)
Definition page (be : Backend) (limit : Num) (rows : list MemberRow)
  : option (list MemberRow) :=
  limit_rows be limit (sort_by by_name rows).

Definition select (be : Backend) (filter : option string) (limit : Num)
  : option (list MemberRow) :=
  match filter with
  | None => page be limit (be_members be)
  | Some f =>
      match row_filter f with
      | Some p => page be limit (List.filter p (be_members be))
      | None => None
      end
  end.

End PostgREST.

(** [[name, role, description, ...(skills || [])].join(' ').toLowerCase()];
    [join] writes a [null] description as the empty string. *)
Definition memberText (m : MemberRow) : string :=
  JS.toLowerCase
    (JS.join " " ([m_name m; m_role m;
                   match m_description m with Some d => d | None => EmptyString end]
                  ++ match m_skills m with Some s => s | None => [] end)).

(** [searchTerms.forEach(term => { if (memberText.includes(term)) score += 0.2 })] *)
Definition text_score (terms : list string) (text : string) : Q :=
  fold_left (fun score term => if JS.includes text term then score + (1 # 5) else score)
            terms 0.

(** [{ ...member, similarity_score: Math.min(score, 1.0) }]; the spread
    keeps a [null] skills column as [null], written here as [[]]. *)
Definition score_member (terms : list string) (m : MemberRow) : SearchResult :=
  mkSearchResult (m_id m) (m_name m) (m_email m) (m_role m) (m_description m)
    (match m_skills m with Some s => s | None => [] end)
    (m_profile_picture m) (m_team m)
    (Fin (JS.min1 (text_score terms (memberText m)))).

(** [results.sort((a, b) => b.similarity_score - a.similarity_score)]:
    [a] stays before [b] unless the comparator is positive. *)
Definition by_score_desc (a b : SearchResult) : bool :=
  negb (F64.gt0 (F64.sub (similarity_score b) (similarity_score a))).

Definition performTextSearch (be : Backend) (query : string) (limit : Num)
  : M (list SearchResult) :=
  let terms := searchTerms query in
  emit (CallSelect (or_filter terms) limit) ;;;
  if be_select_error be then throw "members select failed"
  else match PostgREST.select be (or_filter terms) limit with
       | None => throw "members select rejected"
       | Some members =>
           ret (sort_by by_score_desc (map (score_member terms) members))
       end.

(* ------------------------------------------------------------------ *)
(** ** The [Deno.serve] handler *)

(** The [limit] field of the body: absent, [null], a number, or another
    JSON value (string, boolean, array, object), given by its truthiness
    and by the number [Math.min] converts it to. *)
Inductive Limit :=
| LAbsent
| LNull
| LNum (x : Num)
| LOther (truthy : bool) (as_number : Num).

(** The parsed JSON body: not JSON, the value [null], or an object with
    its [query] field (when it is a string) and its [limit] field. *)
Inductive ReqBody :=
| BodyInvalidJson
| BodyNull
| BodyObject (query : option string) (limit : Limit).

Record Request := mkRequest { req_method : string; req_body : ReqBody }.

(** [SUPABASE_URL] and [SUPABASE_SERVICE_ROLE_KEY] are both set, and the
    clock's [toISOString()]. *)
Record Env := mkEnv { env_ok : bool; now : string }.

Inductive RespBody :=
| RNull
| RError (error : string)
| RSuccess (query : string) (results : list SearchResult) (count : nat)
           (timestamp : string)
| RFailure (error : string) (timestamp : string).

Record Response := mkResponse {
  status : Z;
  headers : list (string * string);
  body : RespBody
}.

Definition corsHeaders : list (string * string) :=
  [ ("Access-Control-Allow-Origin", "*");
    ("Access-Control-Allow-Headers", "authorization, x-client-info, apikey, content-type");
    ("Access-Control-Allow-Methods", "POST, OPTIONS") ].

Definition jsonHeaders : list (string * string) :=
  corsHeaders ++ [("Content-Type", "application/json")].

(** [requestBody.limit || 10] *)
Definition or_10 (l : Limit) : Num :=
  match l with
  | LAbsent | LNull => Fin 10
  | LNum x => if F64.truthy x then x else Fin 10
  | LOther t x => if t then x else Fin 10
  end.

(** [Math.min(requestBody.limit || 10, 50)] *)
Definition effective_limit (l : Limit) : Num := F64.min (or_10 l) (Fin 50).

(** The double-quote character. *)
Definition dq : string := String (ascii_of_nat 34) EmptyString.

Definition bad_request (msg : string) : Response :=
  mkResponse 400 jsonHeaders (RError msg).

(** Semantic search, falling back to text search. *)
Definition search (be : Backend) (query : string) (limit : Num)
  : M (list SearchResult) :=
  catch (performSemanticSearch be query limit)
    (fun _semanticError =>
       catch (performTextSearch be query limit)
         (fun _textError => throw "Search functionality is currently unavailable")).

(** The body of the outer [try]. *)
Definition handle_post (be : Backend) (env : Env) (b : ReqBody) : M Response :=
  if negb (env_ok env) then throw "Missing Supabase environment variables"
  else
    match b with
    | BodyInvalidJson => ret (bad_request "Invalid JSON in request body")
    | BodyNull => throw "Cannot read properties of null (reading 'query')"
    | BodyObject None _ | BodyObject (Some EmptyString) _ =>
        ret (bad_request ("Missing or invalid " ++ dq ++ "query" ++ dq
                          ++ " field in request body"))
    | BodyObject (Some raw) l =>
        let query := JS.trim raw in
        let limit := effective_limit l in
        if (JS.length query <? 3)%nat
        then ret (bad_request "Query must be at least 3 characters long")
        else
          results <- search be query limit ;;
          ret (mkResponse 200 jsonHeaders
                 (RSuccess query results (List.length results) (now env)))
    end.

Definition handler (be : Backend) (env : Env) (req : Request) : M Response :=
  if String.eqb (req_method req) "OPTIONS" then ret (mkResponse 200 corsHeaders RNull)
  else if negb (String.eqb (req_method req) "POST") then
    ret (mkResponse 405 jsonHeaders (RError "Method not allowed. Use POST."))
  else
    catch (handle_post be env (req_body req))
      (fun msg => ret (mkResponse 500 jsonHeaders (RFailure msg (now env)))).

(** One request, from an empty trace: the response (the handler never
    throws) and the calls made. *)
Definition serve (be : Backend) (env : Env) (req : Request)
  : Result Response * list Call :=
  handler be env req [].

(* ------------------------------------------------------------------ *)
(** ** The text matcher as the spec words it *)

(** Spec reading of the text matcher's split: the lowercased query cut
    at every white-space character, pieces longer than 2 kept. *)
Fixpoint split_ws_aux (s cur : string) : list string :=
  match s with
  | EmptyString => [cur]
  | String c s' =>
      if JS.is_ws c then cur :: split_ws_aux s' EmptyString
      else split_ws_aux s' (cur ++ String c EmptyString)
  end.

Definition whitespace_terms (query : string) : list string :=
  filter (fun term => (2 <? JS.length term)%nat)
         (split_ws_aux (JS.toLowerCase query) EmptyString).

(** Spec reading of the predicate: some term is a substring of one of
    the fields, skills included. *)
Definition substring_match (terms : list string) (m : MemberRow) : bool :=
  existsb (fun t => JS.includes (memberText m) t) terms.

(** The query ["react<TAB>node"]. *)
Definition tab_query : string :=
  "react" ++ String (ascii_of_nat 9) EmptyString ++ "node".

(* ------------------------------------------------------------------ *)
(** ** Concrete runs *)

Module Sample.

Definition alice : MemberRow :=
  mkMemberRow 1 "Alice" "alice@example.com" "Frontend Developer"
    (Some "Builds React apps") (Some ["react"; "typescript"]) None (Some "Web")
    (Some [1; 0]).
Definition bob : MemberRow :=
  mkMemberRow 2 "Bob" "bob@example.com" "Designer" None None None None
    (Some [0; 1]).
Definition carol : MemberRow :=
  mkMemberRow 3 "Carol" "carol@example.com" "Backend developer"
    (Some "APIs") (Some ["node"]) None (Some "") None.
(** A member whose stored embedding is all zeros. *)
Definition dave : MemberRow :=
  mkMemberRow 4 "Dave" "dave@example.com" "Analyst" None None None None
    (Some [0; 0]).
(** A member matching [react] only through a longer skill. *)
Definition erin : MemberRow :=
  mkMemberRow 5 "Erin" "erin@example.com" "Designer" None (Some ["reactjs"]) None None
    None.

Definition is_zero (v : list Q) : bool := forallb (fun x => Qeq_bool x 0) v.

(** A cosine distance on vectors of the plane: NaN when one of them is
    all zeros, else [0] when the first coordinates agree and [1]
    otherwise (exact on the unit axes). *)
Definition dist01 (a b : list Q) : Num :=
  if is_zero a || is_zero b then NaN
  else if Qeq_bool (hd 0 a) (hd 0 b) then Fin 0 else Fin 1.

Definition backend (emb_ok rpc_err sel_err : bool) : Backend :=
  mkBackend (fun _ => if emb_ok then Some [1; 0] else None) dist01
    rpc_err sel_err true [carol; bob; alice].

(** The same service, with [dave] among the members. *)
Definition backend_zero : Backend :=
  mkBackend (fun _ => Some [1; 0]) dist01 false false true [carol; bob; alice; dave].

(** Text search only, over [erin]. *)
Definition backend_erin : Backend :=
  mkBackend (fun _ => None) dist01 false false true [erin].

Definition env : Env := mkEnv true "2025-06-26T00:00:00.000Z".

Definition post (q : string) (l : Limit) : Request :=
  mkRequest "POST" (BodyObject (Some q) l).

End Sample.

(* ------------------------------------------------------------------ *)
(** ** The embedding trigger (same migration) *)

Module Trigger.

(** [vector(array_fill(0, ARRAY[384]))]: [array_fill] gives an
    [integer[]], no function [vector] takes one, and a function-style
    call only stands for a cast that needs no cast function, which this
    one does; so evaluating the expression raises this error. *)
Definition vector_call_error : string := "function vector(integer[]) does not exist".

(** [generate_member_embedding], the [BEFORE INSERT OR UPDATE] trigger:
    [IF NEW.embedding IS NULL THEN NEW.embedding := vector(...)]; the
    assignment is only evaluated, and raises, for a null embedding. *)
Definition generate_member_embedding (NEW : MemberRow) : Result MemberRow :=
  match m_embedding NEW with
  | None => Err vector_call_error
  | Some _ => Ok NEW
  end.

(** [INSERT INTO members], through the trigger: the new table, or the
    error that aborts the statement. *)
Definition insert_member (table : list MemberRow) (m : MemberRow)
  : Result (list MemberRow) :=
  match generate_member_embedding m with
  | Ok r => Ok (table ++ [r])%list
  | Err e => Err e
  end.

(** [UPDATE members SET ... WHERE id = i], through the trigger: the
    statement fails as a whole when the trigger raises on one row. *)
Fixpoint update_member (table : list MemberRow) (i : Z) (f : MemberRow -> MemberRow)
  : Result (list MemberRow) :=
  match table with
  | [] => Ok []
  | r :: rs =>
      let r' := if Z.eqb (m_id r) i then generate_member_embedding (f r) else Ok r in
      match r', update_member rs i f with
      | Ok r'', Ok rs' => Ok (r'' :: rs')
      | Err e, _ => Err e
      | _, Err e => Err e
      end
  end.

End Trigger.

(* ------------------------------------------------------------------ *)
(** ** The search page's [performSearch] (the caller of the function) *)

Module Client.

(** Decimal digits of a natural number, as [`${n}`]. *)
Fixpoint digits_aux (fuel n : nat) (acc : string) : string :=
  match fuel with
  | O => acc
  | S fuel' =>
      let acc' := String (ascii_of_nat (48 + n mod 10)) acc in
      if (n <? 10)%nat then acc' else digits_aux fuel' (n / 10) acc'
  end.

Definition z_to_string (z : Z) : string :=
  if (z <? 0)%Z then ("-" ++ digits_aux (S (Z.to_nat (- z))) (Z.to_nat (- z)) "")%string
  else digits_aux (S (Z.to_nat z)) (Z.to_nat z) "".

(** The page's search state. *)
Record ClientState := mkClientState {
  searchResults : list SearchResult;
  isSearching : bool;
  searchError : option string;
  hasSearched : bool
}.

(** [response.ok] *)
Definition resp_ok (r : Response) : bool := (200 <=? status r)%Z && (status r <=? 299)%Z.

(** [data.error || 'Search failed'] *)
Definition error_or_default (e : string) : string :=
  match e with EmptyString => "Search failed" | _ => e end.

(** The [fetch] answer turned into the results or the message thrown. *)
Definition outcome (answer : Result Response) : Result (list SearchResult) :=
  match answer with
  | Err msg => Err msg
  | Ok resp =>
      if negb (resp_ok resp) then Err ("Search failed: " ++ z_to_string (status resp))%string
      else match body resp with
           | RSuccess _ rs _ _ => Ok rs
           | RError e => Err (error_or_default e)
           | RFailure e _ => Err (error_or_default e)
           | RNull => Err "Unexpected end of JSON input"
           end
  end.

(** The request the page sends for [query]. *)
Definition search_request (query : string) : Request :=
  mkRequest "POST" (BodyObject (Some (JS.trim query)) (LNum (Fin 10))).

(** [performSearch(query)]: the new state and the requests sent; [fetch]
    answers a request with a response or throws. *)
Definition performSearch (fetch : Request -> Result Response) (query : string)
    (st : ClientState) : ClientState * list Request :=
  if (JS.length query <? 3)%nat then
    (mkClientState [] (isSearching st) (searchError st) false, [])
  else
    let req := search_request query in
    match outcome (fetch req) with
    | Ok rs => (mkClientState rs false None true, [req])
    | Err msg => (mkClientState [] false (Some msg) true, [req])
    end.

End Client.

(* ------------------------------------------------------------------ *)
(** ** The search page's [handleFileSelect] and [clearFileSelection] *)

Module Upload.

(** The [type] and [size] (bytes) of the chosen [File]. *)
Record SelectedFile := mkSelectedFile {
  file_type : string;
  file_size : Z
}.

(** The page's profile upload state. *)
Record UploadState := mkUploadState {
  selectedFile : option SelectedFile;
  previewUrl : option string;
  uploadError : option string;
  uploadSuccess : bool
}.

Definition allowedTypes : list string := ["image/jpeg"; "image/jpg"; "image/png"].

(** [5 * 1024 * 1024] *)
Definition maxSize : Z := 5 * 1024 * 1024.

(** [handleFileSelect]: [file] is [e.target.files?.[0]] and [url] what
    [URL.createObjectURL(file)] returns. *)
Definition handleFileSelect (file : option SelectedFile) (url : string)
    (st : UploadState) : UploadState :=
  match file with
  | None => st
  | Some f =>
      if negb (existsb (String.eqb (file_type f)) allowedTypes) then
        mkUploadState (selectedFile st) (previewUrl st)
          (Some "Please select a valid image file (.jpg, .jpeg, or .png)")
          (uploadSuccess st)
      else if (maxSize <? file_size f)%Z then
        mkUploadState (selectedFile st) (previewUrl st)
          (Some "File size must be less than 5MB") (uploadSuccess st)
      else mkUploadState (Some f) (Some url) None false
  end.

(** [clearFileSelection] (the reset of the input element is left out). *)
Definition clearFileSelection (st : UploadState) : UploadState :=
  mkUploadState None None None false.

End Upload.

(* ------------------------------------------------------------------ *)
(** ** Vocabulary of the statements *)

(** The arguments a call carries when the effective limit is [lim]. *)
Definition call_ok (lim : Num) (c : Call) : Prop :=
  match c with
  | CallEmbed _ => True
  | CallRpc n t => n = F64.to_json lim /\ t = semantic_threshold
  | CallSelect _ n => n = lim
  end.

Definition extends_ok (lim : Num) (tr tr' : list Call) : Prop :=
  exists ext, tr' = (tr ++ ext)%list /\ Forall (call_ok lim) ext.

(** Request with method POST, a string [query] field and a [limit] field. *)
Definition post (raw : string) (l : Limit) : Request :=
  mkRequest "POST" (BodyObject (Some raw) l).

(** Limit values JavaScript treats as false: absent, [null], [0] and
    any other falsy value. *)
Definition falsy_limit (l : Limit) : bool :=
  match l with
  | LAbsent | LNull => true
  | LNum x => negb (F64.truthy x)
  | LOther t _ => negb t
  end.

(** [limit || 10] is an integer or [Infinity], so that [Math.min] caps it
    at 50 and it reaches both services as an integer. *)
Definition capped_limit (l : Limit) : bool :=
  match or_10 l with
  | Fin q => match F64.to_int q with Some _ => true | None => false end
  | PosInf => true
  | _ => false
  end.

(** [a.similarity_score >= b.similarity_score] *)
Definition score_desc (a b : SearchResult) : Prop :=
  F64.ge (similarity_score a) (similarity_score b) = true.

(** A number of [[0, 1]]. *)
Definition in_unit (x : Num) : Prop :=
  exists q, x = Fin q /\ 0 <= q <= 1.

(** Numeric scores, by descending score and, among equal scores, by name. *)
Definition score_then_name (a b : SearchResult) : Prop :=
  exists x y, similarity_score a = Fin x /\ similarity_score b = Fin y /\
    (y < x \/ (x == y /\ String.leb (r_name a) (r_name b) = true)).

(** A term that none of PostgREST's [,] [(] [)] [{] [}] [*], its quote,
    LIKE's [%] [_] [\] and [array_in]'s white space make special, and
    that is not the array literal [NULL]. *)
Definition plain_char (c : ascii) : bool :=
  negb (existsb (Ascii.eqb c) [","; "("; ")"; "{"; "}"; "*"; "%"; "_"; "\"]%char
        || Ascii.eqb c PostgREST.dq_char || JS.is_ws c).

Definition plain_term (t : string) : bool :=
  forallb plain_char (list_ascii_of_string t) &&
  negb (String.eqb (JS.toLowerCase t) "null").

(** The spec's matcher with [skills] read as the code's [cs]: some term
    is a substring of the lowered name, role or description, or is one
    of the skills. *)
Definition term_matches (t : string) (m : MemberRow) : bool :=
  JS.includes (JS.toLowerCase (m_name m)) t ||
  JS.includes (JS.toLowerCase (m_role m)) t ||
  match m_description m with Some d => JS.includes (JS.toLowerCase d) t | None => false end ||
  match m_skills m with Some l => existsb (String.eqb t) l | None => false end.

(** The conditions PostgREST reads from the four of one term. *)
Definition term_conds (t : string) : list PostgREST.Cond :=
  [ PostgREST.mkCond "name" "ilike" ("%" ++ t ++ "%");
    PostgREST.mkCond "role" "ilike" ("%" ++ t ++ "%");
    PostgREST.mkCond "description" "ilike" ("%" ++ t ++ "%");
    PostgREST.mkCond "skills" "cs" ("{" ++ t ++ "}") ].

(** What may follow a condition in the [or] list: its end, or [,] and
    more conditions. *)
Definition rest_ok (rest : string) : Prop :=
  rest = EmptyString \/ exists r, rest = String "," r.

(** The selected file, if any, is a JPEG or PNG of at most 5 MiB. *)
Definition valid_selection (st : Upload.UploadState) : Prop :=
  match Upload.selectedFile st with
  | None => True
  | Some f => In (Upload.file_type f) Upload.allowedTypes /\
              (Upload.file_size f <= Upload.maxSize)%Z
  end.

(* ================================================================== *)
(** * Facts *)

Open Scope list_scope.

(** ** Sorting *)

Section Sorting.

Context {A : Type} (le : A -> A -> bool).
Hypothesis le_total : forall a b, le a b = false -> le b a = true.
Hypothesis le_trans : forall a b c, le a b = true -> le b c = true -> le a c = true.

Let R (a b : A) : Prop := le a b = true.

Lemma insert_by_perm (x : A) (l : list A) : Permutation (insert_by le x l) (x :: l).
Proof.
  induction l as [|y l IH]; simpl; [reflexivity|].
  destruct (le x y); [reflexivity|].
  rewrite IH. apply perm_swap.
Qed.

Lemma sort_by_perm (l : list A) : Permutation (sort_by le l) l.
Proof.
  induction l as [|x l IH]; simpl; [reflexivity|].
  rewrite insert_by_perm. now apply perm_skip.
Qed.

Lemma insert_by_sorted (x : A) (l : list A) :
  Sorted R l -> Sorted R (insert_by le x l).
Proof.
  induction 1 as [|y l Hs IH Hd]; simpl.
  - repeat constructor.
  - case_eq (le x y); intro Hxy.
    + constructor; [constructor; assumption|]. constructor. exact Hxy.
    + constructor; [exact IH|].
      pose proof (le_total _ _ Hxy) as Hyx.
      destruct l as [|z l]; simpl.
      * constructor. exact Hyx.
      * destruct (le x z); constructor; [exact Hyx|].
        inversion Hd; assumption.
Qed.

Lemma sort_by_sorted (l : list A) : StronglySorted R (sort_by le l).
Proof.
  apply Sorted_StronglySorted.
  - intros a b c; apply le_trans.
  - induction l; simpl; [constructor|]. now apply insert_by_sorted.
Qed.

End Sorting.

Lemma sort_by_In {A} (le : A -> A -> bool) (l : list A) (x : A) :
  In x (sort_by le l) <-> In x l.
Proof.
  split; apply Permutation_in; [|symmetry]; apply sort_by_perm.
Qed.

Lemma In_firstn {A} (n : nat) (l : list A) (x : A) : In x (firstn n l) -> In x l.
Proof.
  intro H. rewrite <- (firstn_skipn n l). apply in_or_app. now left.
Qed.

Lemma StronglySorted_firstn {A} (R : A -> A -> Prop) (n : nat) (l : list A) :
  StronglySorted R l -> StronglySorted R (firstn n l).
Proof.
  revert l; induction n as [|n IH]; intros [|x l] H; simpl; try solve [constructor].
  apply StronglySorted_inv in H as [H1 H2].
  constructor; [now apply IH|].
  rewrite Forall_forall in *. intros y Hy. apply H2.
  exact (In_firstn _ _ _ Hy).
Qed.

Lemma StronglySorted_map {A B} (R : A -> A -> Prop) (S : B -> B -> Prop)
    (f : A -> B) (l : list A) :
  (forall a b, R a b -> S (f a) (f b)) ->
  StronglySorted R l -> StronglySorted S (map f l).
Proof.
  intros HRS; induction 1 as [|x l Hs IH Hf]; simpl; constructor; [exact IH|].
  rewrite Forall_forall in *. intros y Hy.
  apply in_map_iff in Hy as [z [<- Hz]]. auto.
Qed.

Lemma Qle_bool_total (a b : Q) : Qle_bool a b = false -> Qle_bool b a = true.
Proof.
  intro H. apply Qle_bool_iff.
  destruct (Qlt_le_dec b a) as [Hlt|Hle]; [now apply Qlt_le_weak|].
  apply Qle_bool_iff in Hle. congruence.
Qed.

Lemma Qle_bool_trans (a b c : Q) :
  Qle_bool a b = true -> Qle_bool b c = true -> Qle_bool a c = true.
Proof.
  rewrite !Qle_bool_iff. apply Qle_trans.
Qed.


(** ** Numbers *)

Lemma pg_le_total (a b : Num) : F64.pg_le a b = false -> F64.pg_le b a = true.
Proof.
  destruct a, b; simpl; try discriminate; try reflexivity.
  apply Qle_bool_total.
Qed.

Lemma pg_le_trans (a b c : Num) :
  F64.pg_le a b = true -> F64.pg_le b c = true -> F64.pg_le a c = true.
Proof.
  destruct a, b, c; simpl; try discriminate; try reflexivity.
  apply Qle_bool_trans.
Qed.

Lemma Qle_bool_compat (a b c d : Q) :
  a == c -> b == d -> Qle_bool a b = Qle_bool c d.
Proof.
  intros H1 H2.
  destruct (Qle_bool a b) eqn:E1, (Qle_bool c d) eqn:E2; try reflexivity.
  - apply Qle_bool_iff in E1. rewrite H1, H2 in E1.
    apply Qle_bool_iff in E1. congruence.
  - apply Qle_bool_iff in E2. rewrite <- H1, <- H2 in E2.
    apply Qle_bool_iff in E2. congruence.
Qed.

Lemma to_int_spec (q : Q) (z : Z) : F64.to_int q = Some z -> q == inject_Z z.
Proof.
  unfold F64.to_int. destruct (Qden (Qred q) =? 1)%positive eqn:E; [|discriminate].
  intro H; inversion H; subst. apply Pos.eqb_eq in E.
  rewrite <- (Qred_correct q) at 1. unfold inject_Z, Qeq.
  destruct (Qred q) as [n d]; simpl in *. subst d. reflexivity.
Qed.

Lemma to_int_inject (z : Z) : F64.to_int (inject_Z z) = Some z.
Proof.
  unfold F64.to_int, Qred, inject_Z.
  pose proof (Z.ggcd_gcd z 1) as Hg. pose proof (Z.ggcd_correct_divisors z 1) as Hd.
  destruct (Z.ggcd z 1) as [g [a b]]. simpl in *.
  rewrite Z.gcd_1_r in Hg. subst g. destruct Hd as [Ha Hb].
  rewrite Z.mul_1_l in Ha, Hb. subst. reflexivity.
Qed.

Lemma int_param_inject (z : Z) : F64.int_param (Fin (inject_Z z)) = Some z.
Proof. apply to_int_inject. Qed.

Lemma ge_or_zero (x y : Num) : F64.ge (or_zero x) y = F64.ge x y.
Proof.
  destruct x as [q| | |]; simpl; try reflexivity.
  destruct (Qeq_bool q 0) eqn:E; [|reflexivity].
  apply Qeq_bool_iff in E. destruct y as [r| | |]; simpl; try reflexivity.
  apply Qle_bool_compat; [reflexivity|now symmetry].
Qed.

Lemma pg_le_fin_ge (t : Q) (x : Num) :
  F64.pg_le (Fin t) x = true -> x = NaN \/ F64.ge x (Fin t) = true.
Proof.
  destruct x; simpl; auto; discriminate.
Qed.

(** ** Traces *)

Lemma extends_ok_refl lim tr : extends_ok lim tr tr.
Proof. exists []. rewrite app_nil_r. split; [reflexivity|constructor]. Qed.

Lemma extends_ok_trans lim tr1 tr2 tr3 :
  extends_ok lim tr1 tr2 -> extends_ok lim tr2 tr3 -> extends_ok lim tr1 tr3.
Proof.
  intros [e1 [-> H1]] [e2 [-> H2]]. exists (e1 ++ e2).
  rewrite app_assoc. split; [reflexivity|]. now apply Forall_app.
Qed.

Lemma extends_ok_one lim tr c : call_ok lim c -> extends_ok lim tr (tr ++ [c]).
Proof. intro H. exists [c]. split; [reflexivity|]. now repeat constructor. Qed.

(** ** The two search paths *)

Lemma semantic_spec be q lim tr r tr' :
  performSemanticSearch be q lim tr = (r, tr') ->
  extends_ok lim tr tr' /\
  (forall rs, r = Ok rs -> exists qe rows,
      rpc_call be qe (F64.to_json lim) semantic_threshold = Some rows /\
      rs = map transform_match rows).
Proof.
  unfold performSemanticSearch, generateEmbedding, rpc_match_members,
    bind, emit, ret, throw.
  destruct (be_embed be q) as [qe|]; [|intro H; inversion H; subst; split;
    [apply extends_ok_one; exact I | discriminate]].
  assert (Htr : extends_ok lim tr
                  ((tr ++ [CallEmbed q]) ++ [CallRpc (F64.to_json lim) semantic_threshold])).
  { eapply extends_ok_trans; apply extends_ok_one; [exact I|]. now split. }
  destruct (be_rpc_error be).
  - intro H; inversion H; subst; split; [exact Htr|discriminate].
  - destruct (rpc_call be qe (F64.to_json lim) semantic_threshold) as [rows|] eqn:Hm;
      intro H.
    + destruct rows as [|row rows']; inversion H; subst; (split; [exact Htr|]);
        intros rs Hrs; inversion Hrs; subst; exists qe; eexists; split;
        try exact Hm; reflexivity.
    + inversion H; subst; split; [exact Htr|discriminate].
Qed.

Lemma text_spec be q lim tr r tr' :
  performTextSearch be q lim tr = (r, tr') ->
  extends_ok lim tr tr' /\
  (forall rs, r = Ok rs -> exists members,
      PostgREST.select be (or_filter (searchTerms q)) lim = Some members /\
      rs = sort_by by_score_desc (map (score_member (searchTerms q)) members)).
Proof.
  unfold performTextSearch, bind, emit, ret, throw.
  assert (Htr : extends_ok lim tr (tr ++ [CallSelect (or_filter (searchTerms q)) lim]))
    by (apply extends_ok_one; reflexivity).
  destruct (be_select_error be);
    [|destruct (PostgREST.select be (or_filter (searchTerms q)) lim) as [ms|] eqn:Hs];
    intro H; inversion H; subst; (split; [exact Htr|]); intros rs Hrs;
    try discriminate.
  inversion Hrs; subst. eexists; split; [reflexivity|reflexivity].
Qed.

Lemma search_spec be q lim tr r tr' :
  search be q lim tr = (r, tr') ->
  extends_ok lim tr tr' /\
  (forall rs, r = Ok rs ->
     (exists qe rows,
        rpc_call be qe (F64.to_json lim) semantic_threshold = Some rows /\
        rs = map transform_match rows) \/
     (exists members,
        PostgREST.select be (or_filter (searchTerms q)) lim = Some members /\
        rs = sort_by by_score_desc (map (score_member (searchTerms q)) members))).
Proof.
  unfold search, catch, throw.
  destruct (performSemanticSearch be q lim tr) as [[rs1|e1] tr1] eqn:H1;
    pose proof (semantic_spec _ _ _ _ _ _ H1) as [E1 S1].
  - intro H; inversion H; subst. split; [exact E1|]. intros rs Hrs. left. now apply S1.
  - destruct (performTextSearch be q lim tr1) as [[rs2|e2] tr2] eqn:H2;
      pose proof (text_spec _ _ _ _ _ _ H2) as [E2 S2];
      intro H; inversion H; subst; (split; [eapply extends_ok_trans; eassumption|]);
      intros rs Hrs; try discriminate.
    right. now apply S2.
Qed.

(** ** The handler *)

Lemma serve_spec be env req r tr :
  serve be env req = (r, tr) ->
  (exists resp, r = Ok resp) /\
  (tr = [] \/ exists raw l, req_body req = BodyObject (Some raw) l /\
                            extends_ok (effective_limit l) [] tr) /\
  (forall s h q rs n ts, r = Ok (mkResponse s h (RSuccess q rs n ts)) ->
     exists raw l, req_method req = "POST"%string /\
       req_body req = BodyObject (Some raw) l /\
       q = JS.trim raw /\ s = 200%Z /\ n = List.length rs /\
       (3 <= JS.length q)%nat /\
       exists tr', search be q (effective_limit l) [] = (Ok rs, tr')).
Proof.
  unfold serve, handler, handle_post, catch, bind, ret, throw.
  destruct req as [meth b]; simpl.
  destruct (String.eqb meth "OPTIONS") eqn:Ho;
    [intro H; inversion H; subst; repeat split; eauto; intros; discriminate|].
  destruct (String.eqb meth "POST") eqn:Hp; simpl;
    [|intro H; inversion H; subst; repeat split; eauto; intros; discriminate].
  apply String.eqb_eq in Hp; subst meth.
  destruct (env_ok env); simpl;
    [|intro H; inversion H; subst; repeat split; eauto; intros; discriminate].
  destruct b as [| |[raw|] l];
    try (intro H; inversion H; subst; repeat split; eauto; intros; discriminate).
  destruct raw as [|c raw0];
    [intro H; inversion H; subst; repeat split; eauto; intros; discriminate|].
  set (raw := String c raw0).
  destruct (JS.length (JS.trim raw) <? 3)%nat eqn:Hlen;
    [intro H; inversion H; subst; repeat split; eauto; intros; discriminate|].
  destruct (search be (JS.trim raw) (effective_limit l) []) as [[rs0|e] tr0] eqn:Hs;
    pose proof (search_spec _ _ _ _ _ _ Hs) as [Es _];
    intro H; inversion H; subst;
    (split; [eauto|split; [right; exists raw, l; auto|]]);
    intros s h q rs n ts Hr; inversion Hr; subst.
  exists raw, l. repeat split; auto.
  - apply Nat.ltb_ge in Hlen. exact Hlen.
  - eauto.
Qed.

(** ** Lengths *)

(** [trim] never lengthens its argument. *)
Lemma JS_length_append (s t : string) :
  JS.length (s ++ t) = (JS.length s + JS.length t)%nat.
Proof. induction s as [|c s IH]; simpl; [reflexivity|]. rewrite IH. lia. Qed.

Lemma rev_str_length s : JS.length (JS.rev_str s) = JS.length s.
Proof.
  induction s as [|c s IH]; simpl; [reflexivity|].
  rewrite JS_length_append, IH; simpl. lia.
Qed.

Lemma trim_start_length s : (JS.length (JS.trim_start s) <= JS.length s)%nat.
Proof.
  induction s as [|c s IH]; simpl; [lia|]. destruct (JS.is_ws c); simpl; lia.
Qed.

Lemma trim_length s : (JS.length (JS.trim s) <= JS.length s)%nat.
Proof.
  unfold JS.trim. rewrite rev_str_length.
  etransitivity; [apply trim_start_length|].
  rewrite rev_str_length. apply trim_start_length.
Qed.

(** Lengths of the results of the two search paths. *)
Lemma SQL_limit_length {A} n (l rows : list A) :
  SQL.limit (Some n) l = Some rows -> (0 <= n /\ Z.of_nat (List.length rows) <= n)%Z.
Proof.
  unfold SQL.limit. destruct (n <? 0)%Z eqn:Hn; [discriminate|].
  intro H; inversion H; subst. apply Z.ltb_ge in Hn. split; [exact Hn|].
  pose proof (firstn_le_length (Z.to_nat n) l). lia.
Qed.

Lemma rpc_call_members be qe mc t rows :
  rpc_call be qe mc t = Some rows -> exists n, SQL.match_members be qe n t = Some rows.
Proof.
  unfold rpc_call. destruct mc as [q|]; [|eauto].
  destruct (F64.to_int q); [eauto|discriminate].
Qed.

Lemma rpc_call_length be qe lim k t rows :
  F64.int_param lim = Some k ->
  rpc_call be qe (F64.to_json lim) t = Some rows ->
  (Z.of_nat (List.length rows) <= k)%Z.
Proof.
  destruct lim as [q| | |]; simpl; try discriminate.
  intros Hk. unfold rpc_call. rewrite Hk. unfold SQL.match_members.
  intro H. now apply SQL_limit_length in H.
Qed.

Lemma limit_rows_length {A} be n k (l rows : list A) :
  F64.int_param n = Some k -> PostgREST.limit_rows be n l = Some rows ->
  (Z.of_nat (List.length rows) <= k)%Z.
Proof.
  unfold PostgREST.limit_rows. intros -> H. now apply SQL_limit_length in H.
Qed.

Lemma select_length be f lim k ms :
  F64.int_param lim = Some k -> PostgREST.select be f lim = Some ms ->
  (Z.of_nat (List.length ms) <= k)%Z.
Proof.
  intro Hk. unfold PostgREST.select, PostgREST.page.
  destruct f as [f|]; [destruct (PostgREST.row_filter f)|]; try discriminate;
    now apply limit_rows_length.
Qed.

Lemma search_length be q lim k tr rs tr' :
  F64.int_param lim = Some k ->
  search be q lim tr = (Ok rs, tr') -> (Z.of_nat (List.length rs) <= k)%Z.
Proof.
  intros Hk H. apply search_spec in H as [_ H].
  destruct (H rs eq_refl) as [[qe [rows [Hm ->]]]|[ms [Hs ->]]].
  - rewrite length_map. eapply rpc_call_length; eassumption.
  - apply (select_length _ _ _ _ _ Hk) in Hs.
    rewrite (Permutation_length (sort_by_perm _ _)), length_map. exact Hs.
Qed.

(** [limit || 10] an integer or [Infinity]: [Math.min] gives an integer
    of at most 50. *)
Lemma capped_effective (l : Limit) :
  capped_limit l = true ->
  exists k, F64.int_param (effective_limit l) = Some k /\ (k <= 50)%Z /\
    forall x, or_10 l = Fin x -> inject_Z k == Qmin x 50.
Proof.
  unfold capped_limit, effective_limit.
  destruct (or_10 l) as [x| | |]; try discriminate; intro H.
  - destruct (F64.to_int x) as [z|] eqn:Ez; [|discriminate].
    pose proof (to_int_spec _ _ Ez) as Hx. simpl.
    destruct (Qle_bool x 50) eqn:Hle.
    + exists z. simpl. split; [exact Ez|]. apply Qle_bool_iff in Hle.
      split.
      * rewrite Zle_Qle. rewrite <- Hx. exact Hle.
      * intros y Hy; inversion Hy; subst. rewrite Q.min_l by exact Hle.
        now symmetry.
    + exists 50%Z. split; [reflexivity|]. split; [lia|].
      intros y Hy; inversion Hy; subst. rewrite Q.min_r; [reflexivity|].
      apply Qlt_le_weak. apply Qnot_le_lt. intro C.
      apply Qle_bool_iff in C. congruence.
  - exists 50%Z. repeat split; [lia|]. discriminate.
Qed.

(** ** Limits *)

Lemma falsy_or_10 (l : Limit) : falsy_limit l = true -> or_10 l = Fin 10.
Proof.
  destruct l as [| |x|t x]; simpl; try reflexivity.
  - destruct (F64.truthy x); [discriminate|reflexivity].
  - destruct t; [discriminate|reflexivity].
Qed.

Lemma or_10_nonzero (x : Q) : ~ x == 0 -> or_10 (LNum (Fin x)) = Fin x.
Proof.
  intro Hx. simpl. destruct (Qeq_bool x 0) eqn:E; [|reflexivity].
  apply Qeq_bool_iff in E. contradiction.
Qed.

(* ------------------------------------------------------------------ *)
(** ** Claims *)

(** C1: when [performSemanticSearch] throws, the handler runs
    [performTextSearch] with the same (trimmed) query and limit and answers
    with its results; the semantic error is never reported, and only a
    failing text search gives an error response. *)
Theorem semantic_failure_falls_back_to_text (be : Backend) (env : Env)
    (raw : string) (l : Limit) (e : string) (tr1 : list Call)
    (Henv : env_ok env = true)
    (Hlen : (3 <= JS.length (JS.trim raw))%nat)
    (Hsem : performSemanticSearch be (JS.trim raw) (effective_limit l) [] = (Err e, tr1)) :
  serve be env (post raw l) =
  match performTextSearch be (JS.trim raw) (effective_limit l) tr1 with
  | (Ok rs, tr2) =>
      (Ok (mkResponse 200 jsonHeaders
             (RSuccess (JS.trim raw) rs (List.length rs) (now env))), tr2)
  | (Err _, tr2) =>
      (Ok (mkResponse 500 jsonHeaders
             (RFailure "Search functionality is currently unavailable" (now env))), tr2)
  end.
Proof.
  unfold serve, handler, post; simpl.
  unfold handle_post; rewrite Henv; simpl.
  destruct raw as [|c raw0]; [simpl in Hlen; lia|].
  set (raw := String c raw0) in *.
  assert (Hlt : (JS.length (JS.trim raw) <? 3)%nat = false)
    by (apply Nat.ltb_ge; exact Hlen).
  rewrite Hlt. unfold catch, bind, search, catch, throw, ret.
  rewrite Hsem.
  destruct (performTextSearch be (JS.trim raw) (effective_limit l) tr1)
    as [[rs|e2] tr2]; reflexivity.
Qed.

Lemma semantic_failure_falls_back_to_text_witness :
  performSemanticSearch (Sample.backend false false false) "React developer"
      (effective_limit LAbsent) []
    = (Err "Failed to generate embedding", [CallEmbed "React developer"]) /\
  serve (Sample.backend false false false) Sample.env (post "React developer" LAbsent) =
  match performTextSearch (Sample.backend false false false) "React developer"
          (effective_limit LAbsent) [CallEmbed "React developer"] with
  | (Ok rs, tr2) =>
      (Ok (mkResponse 200 jsonHeaders
             (RSuccess "React developer" rs (List.length rs) (now Sample.env))), tr2)
  | (Err _, tr2) =>
      (Ok (mkResponse 500 jsonHeaders
             (RFailure "Search functionality is currently unavailable" (now Sample.env))), tr2)
  end.
Proof.
  split; [vm_compute; reflexivity|].
  apply (semantic_failure_falls_back_to_text (Sample.backend false false false)
           Sample.env "React developer" LAbsent "Failed to generate embedding"
           [CallEmbed "React developer"]); vm_compute; [reflexivity | | reflexivity].
  repeat constructor.
Defined.

(** C2 (counterexample): with the Supabase environment variables unset, a
    two-character query gets status 500, not 400. *)
Lemma short_query_counterexample :
  serve (Sample.backend true false false) (mkEnv false "t") (post "ab" LAbsent)
    = (Ok (mkResponse 500 jsonHeaders
             (RFailure "Missing Supabase environment variables" "t")), []) /\
  status (mkResponse 500 jsonHeaders
            (RFailure "Missing Supabase environment variables" "t")) <> 400%Z.
Proof. split; [reflexivity | discriminate]. Qed.

(** C2 (amended): a POST whose query string is shorter than 3 characters
    makes no backend call; it gets a 400 validation error when the
    environment variables are set, and the 500 environment error otherwise. *)
Theorem short_query_rejected (be : Backend) (env : Env) (raw : string)
    (l : Limit) (Hlen : (JS.length raw < 3)%nat) :
  snd (serve be env (post raw l)) = [] /\
  (env_ok env = true -> exists msg, fst (serve be env (post raw l)) = Ok (bad_request msg)) /\
  (env_ok env = false -> fst (serve be env (post raw l)) =
     Ok (mkResponse 500 jsonHeaders
           (RFailure "Missing Supabase environment variables" (now env)))).
Proof.
  unfold serve, handler, post; simpl. unfold handle_post, catch, bind, ret, throw.
  destruct (env_ok env); simpl;
    [|repeat split; intros; try reflexivity; discriminate].
  destruct raw as [|c raw0];
    [repeat split; intros; first [reflexivity | eexists; reflexivity | congruence]|].
  pose proof (trim_length (String c raw0)) as Ht.
  assert (Hlt : (JS.length (JS.trim (String c raw0)) <? 3)%nat = true)
    by (apply Nat.ltb_lt; lia).
  rewrite Hlt.
  repeat split; intros; first [reflexivity | eexists; reflexivity | congruence].
Qed.

Lemma short_query_rejected_witness :
  (JS.length "ab" < 3)%nat /\
  snd (serve (Sample.backend true false false) Sample.env (post "ab" LAbsent)) = [] /\
  (env_ok Sample.env = true -> exists msg,
     fst (serve (Sample.backend true false false) Sample.env (post "ab" LAbsent))
       = Ok (bad_request msg)) /\
  (env_ok Sample.env = false ->
     fst (serve (Sample.backend true false false) Sample.env (post "ab" LAbsent)) =
     Ok (mkResponse 500 jsonHeaders
           (RFailure "Missing Supabase environment variables" (now Sample.env)))).
Proof.
  split; [vm_compute; lia|].
  apply (short_query_rejected (Sample.backend true false false) Sample.env "ab" LAbsent).
  vm_compute; lia.
Defined.

(** C3 (counterexample): a request with [limit: 0] gets a result, more
    than [min(0, 50) = 0]. *)
Lemma limit_zero_counterexample :
  exists rs tr,
    serve (Sample.backend true false false) Sample.env
          (post "React developer" (LNum (Fin 0)))
    = (Ok (mkResponse 200 jsonHeaders
             (RSuccess "React developer" rs 1 (now Sample.env))), tr) /\
    (Z.of_nat (List.length rs) > Z.min 0 50)%Z.
Proof.
  eexists; eexists; split; [vm_compute; reflexivity|].
  vm_compute. reflexivity.
Qed.

(** C3 (amended): when [limit || 10] is an integer or [Infinity] (an
    absent, [null] or other falsy limit, an integer, a value that converts
    to one, or [Infinity]), a successful response has [count] equal to the
    number of results, at most 50; at most [min(limit, 50)] for a non-zero
    numeric [limit], at most 10 for a falsy one. *)
Theorem result_count_bounded (be : Backend) (env : Env) (raw : string)
    (l : Limit) (s : Z) (h : list (string * string)) (q : string)
    (rs : list SearchResult) (n : nat) (ts : string) (tr : list Call)
    (Hl : capped_limit l = true)
    (H : serve be env (post raw l) = (Ok (mkResponse s h (RSuccess q rs n ts)), tr)) :
  n = List.length rs /\
  (Z.of_nat n <= 50)%Z /\
  (forall x, l = LNum (Fin x) -> ~ x == 0 -> inject_Z (Z.of_nat n) <= Qmin x 50) /\
  (falsy_limit l = true -> (n <= 10)%nat).
Proof.
  destruct (capped_effective l Hl) as [k [Hk [Hk50 Hkx]]].
  apply serve_spec in H as [_ [_ H]].
  destruct (H _ _ _ _ _ _ eq_refl) as [raw' [l' [_ [Hb [_ [_ [Hn [_ [tr' Hs]]]]]]]]].
  simpl in Hb. inversion Hb; subst raw' l'.
  apply (search_length _ _ _ _ _ _ _ Hk) in Hs. subst n.
  split; [reflexivity|]. split; [lia|]. split.
  - intros x -> Hx. rewrite <- (Hkx x (or_10_nonzero x Hx)).
    rewrite <- Zle_Qle. exact Hs.
  - intro Hf. pose proof (Hkx 10 (falsy_or_10 l Hf)) as Hk10.
    change (Qmin 10 50) with (inject_Z 10) in Hk10.
    unfold Qeq in Hk10; simpl in Hk10. lia.
Qed.

Lemma result_count_bounded_witness :
  capped_limit (LNum (Fin 5)) = true /\
  serve (Sample.backend true false false) Sample.env (post "React developer" (LNum (Fin 5)))
    = (Ok (mkResponse 200 jsonHeaders
             (RSuccess "React developer"
                [transform_match (mkMatchRow Sample.alice (SQL.one_minus (Fin 0)) (Fin 0))] 1
                (now Sample.env))),
       [CallEmbed "React developer"; CallRpc (Some 5) semantic_threshold]) /\
  ((1 = List.length [transform_match (mkMatchRow Sample.alice (SQL.one_minus (Fin 0)) (Fin 0))])%nat /\
   (Z.of_nat 1 <= 50)%Z /\
   (forall x, LNum (Fin 5) = LNum (Fin x) -> ~ x == 0 -> inject_Z (Z.of_nat 1) <= Qmin x 50) /\
   (falsy_limit (LNum (Fin 5)) = true -> (1 <= 10)%nat)).
Proof.
  assert (Hl : capped_limit (LNum (Fin 5)) = true) by (vm_compute; reflexivity).
  assert (Hs : serve (Sample.backend true false false) Sample.env
                 (post "React developer" (LNum (Fin 5)))
               = (Ok (mkResponse 200 jsonHeaders
                        (RSuccess "React developer"
                           [transform_match (mkMatchRow Sample.alice (SQL.one_minus (Fin 0)) (Fin 0))] 1
                           (now Sample.env))),
                  [CallEmbed "React developer"; CallRpc (Some 5) semantic_threshold]))
    by (vm_compute; reflexivity).
  split; [exact Hl|]. split; [exact Hs|].
  exact (result_count_bounded _ _ _ _ _ _ _ _ _ _ _ Hl Hs).
Defined.

(** C10: an absent, [null], [0] or other falsy limit makes the effective
    limit 10: both search paths are called with 10, and up to 10 results
    come back. *)
Theorem falsy_limit_defaults_to_10 (l : Limit)
    (Hf : falsy_limit l = true) :
  effective_limit l = Fin 10 /\
  forall be env raw r tr, serve be env (post raw l) = (r, tr) ->
    Forall (call_ok (Fin 10)) tr /\
    (forall s h q rs n ts, r = Ok (mkResponse s h (RSuccess q rs n ts)) -> (n <= 10)%nat).
Proof.
  assert (Hl : effective_limit l = Fin 10)
    by (unfold effective_limit; rewrite (falsy_or_10 l Hf); reflexivity).
  split; [exact Hl|]. intros be env raw r tr H.
  apply serve_spec in H as [_ [Htr Hsucc]]. split.
  - destruct Htr as [->|[raw' [l' [Hb [ext [Hext Hok]]]]]]; [constructor|].
    simpl in Hb. inversion Hb; subst raw' l'. simpl in Hext. subst ext.
    now rewrite Hl in Hok.
  - intros s h q rs n ts Hr.
    destruct (Hsucc _ _ _ _ _ _ Hr) as [raw' [l' [_ [Hb [_ [_ [Hn [_ [tr' Hs]]]]]]]]].
    simpl in Hb. inversion Hb; subst raw' l'. rewrite Hl in Hs.
    apply (search_length _ _ _ 10%Z) in Hs; [lia|reflexivity].
Qed.

Lemma falsy_limit_defaults_to_10_witness :
  falsy_limit (LNum (Fin 0)) = true /\
  effective_limit (LNum (Fin 0)) = Fin 10 /\
  forall be env raw r tr, serve be env (post raw (LNum (Fin 0))) = (r, tr) ->
    Forall (call_ok (Fin 10)) tr /\
    (forall s h q rs n ts, r = Ok (mkResponse s h (RSuccess q rs n ts)) -> (n <= 10)%nat).
Proof.
  split; [reflexivity|].
  apply (falsy_limit_defaults_to_10 (LNum (Fin 0))). reflexivity.
Defined.
(** C8 (counterexample): a POST whose body is not JSON gets status 400
    with the body [{error}], which has neither [success] nor [timestamp]. *)
Lemma invalid_json_counterexample :
  serve (Sample.backend true false false) Sample.env (mkRequest "POST" BodyInvalidJson)
    = (Ok (mkResponse 400 jsonHeaders (RError "Invalid JSON in request body")), []) /\
  (forall q rs n ts, RError "Invalid JSON in request body" <> RSuccess q rs n ts) /\
  (forall e ts, RError "Invalid JSON in request body" <> RFailure e ts).
Proof.
  split; [reflexivity|]. split; intros; discriminate.
Qed.

(** C8 (amended): OPTIONS gets 200 with the CORS headers and no body; any
    other method but POST gets 405 with [{error}]; a POST gets 200 with
    [{success, query, results, count, timestamp}], 400 with [{error}] for
    an invalid body or query, or 500 with [{success: false, error,
    timestamp}]. *)
Theorem response_shapes (be : Backend) (env : Env) (req : Request) :
  exists resp, fst (serve be env req) = Ok resp /\
  (req_method req = "OPTIONS"%string -> resp = mkResponse 200 corsHeaders RNull) /\
  (req_method req <> "OPTIONS"%string -> req_method req <> "POST"%string ->
     resp = mkResponse 405 jsonHeaders (RError "Method not allowed. Use POST.")) /\
  (req_method req = "POST"%string ->
     (status resp = 200%Z /\ headers resp = jsonHeaders /\
        exists q rs, body resp = RSuccess q rs (List.length rs) (now env)) \/
     (status resp = 400%Z /\ headers resp = jsonHeaders /\
        exists e, body resp = RError e) \/
     (status resp = 500%Z /\ headers resp = jsonHeaders /\
        exists e, body resp = RFailure e (now env))).
Proof.
  destruct req as [meth b]; unfold serve, handler; simpl.
  destruct (String.eqb meth "OPTIONS") eqn:Ho.
  - apply String.eqb_eq in Ho; subst meth.
    eexists; split; [reflexivity|]. split; [reflexivity|].
    split; [intros H; contradiction|]. discriminate.
  - apply String.eqb_neq in Ho.
    destruct (String.eqb meth "POST") eqn:Hp; simpl.
    + apply String.eqb_eq in Hp; subst meth.
      unfold catch.
      destruct (handle_post be env b []) as [[resp|e] tr] eqn:Hh; simpl.
      * exists resp. split; [reflexivity|]. split; [intro; contradiction|].
        split; [intros _ H; contradiction|]. intros _.
        revert Hh. unfold handle_post, bind, ret, throw.
        destruct (env_ok env); simpl; [|discriminate].
        destruct b as [| |[[|c raw0]|] l]; intro Hh; inversion Hh; subst;
          try (right; left; repeat split; eexists; reflexivity).
        destruct (JS.length (JS.trim (String c raw0)) <? 3)%nat;
          [inversion Hh; subst; right; left; repeat split; eexists; reflexivity|].
        destruct (search be (JS.trim (String c raw0)) (effective_limit l) [])
          as [[rs|e] tr'] in Hh; inversion Hh; subst.
        left. repeat split. eexists; eexists; reflexivity.
      * eexists; split; [reflexivity|]. split; [intro; contradiction|].
        split; [intros _ H; contradiction|]. intros _.
        right; right. repeat split. eexists; reflexivity.
    + apply String.eqb_neq in Hp.
      eexists; split; [reflexivity|]. split; [intro; contradiction|].
      split; [reflexivity|]. intro; contradiction.
Qed.


(** ** The text score *)

Lemma text_score_count (terms : list string) (text : string) (acc : Q) :
  fold_left (fun score term =>
               if JS.includes text term then score + (1 # 5) else score) terms acc
  == acc + (1 # 5) * inject_Z (Z.of_nat (List.length
                                            (filter (JS.includes text) terms))).
Proof.
  revert acc; induction terms as [|t ts IH]; intro acc.
  - simpl. ring.
  - cbn [fold_left filter]. rewrite IH. destruct (JS.includes text t).
    + cbn [List.length]. rewrite Nat2Z.inj_succ, <- Z.add_1_r, inject_Z_plus. ring.
    + reflexivity.
Qed.

Lemma min1_Qmin (x : Q) : JS.min1 x == Qmin x 1.
Proof.
  unfold JS.min1. destruct (Qle_bool x 1) eqn:H.
  - apply Qle_bool_iff in H. symmetry. now apply Q.min_l.
  - apply Qle_bool_total, Qle_bool_iff in H. symmetry. now apply Q.min_r.
Qed.

Lemma limit_rows_in {A} be n (l rows : list A) x :
  PostgREST.limit_rows be n l = Some rows -> In x rows -> In x l.
Proof.
  unfold PostgREST.limit_rows, SQL.limit.
  destruct (F64.int_param n) as [k|].
  - destruct (k <? 0)%Z; [discriminate|]. intro H; inversion H; subst.
    apply In_firstn.
  - destruct (be_limit_lenient be); [|discriminate]. intro H; inversion H; subst. auto.
Qed.

Lemma select_from_members be f lim ms m :
  PostgREST.select be f lim = Some ms -> In m ms -> In m (be_members be).
Proof.
  unfold PostgREST.select, PostgREST.page.
  destruct f as [f|]; [destruct (PostgREST.row_filter f) as [p|]; [|discriminate]|];
    intros H Hm; apply (limit_rows_in _ _ _ _ _ H), sort_by_In in Hm;
    [apply filter_In in Hm; tauto | exact Hm].
Qed.

(** C4: every member [performTextSearch] returns has as [similarity_score]
    0.2 times the number of search terms found in the lowercased
    concatenation of its name, role, description and skills, capped at 1. *)
Theorem text_search_score (be : Backend) (q : string) (lim : Num) (tr : list Call)
    (rs : list SearchResult) (tr' : list Call)
    (H : performTextSearch be q lim tr = (Ok rs, tr')) :
  forall r, In r rs -> exists m, In m (be_members be) /\
    r_id r = m_id m /\ r_name r = m_name m /\ r_role r = m_role m /\
    r_description r = m_description m /\
    exists s, similarity_score r = Fin s /\
      s == Qmin ((1 # 5) * inject_Z (Z.of_nat (List.length
              (filter (fun term => JS.includes (memberText m) term) (searchTerms q))))) 1.
Proof.
  apply text_spec in H as [_ H]. destruct (H rs eq_refl) as [ms [Hs ->]].
  intros r Hr. apply sort_by_In, in_map_iff in Hr as [m [<- Hm]].
  exists m. split; [exact (select_from_members _ _ _ _ _ Hs Hm)|].
  repeat split. eexists; split; [reflexivity|]. unfold text_score.
  rewrite min1_Qmin, text_score_count, Qplus_0_l. reflexivity.
Qed.

Lemma text_search_score_witness :
  exists rs tr',
    performTextSearch (Sample.backend true false false) "React developer" (Fin 10) []
      = (Ok rs, tr') /\
    forall r, In r rs -> exists m, In m (be_members (Sample.backend true false false)) /\
      r_id r = m_id m /\ r_name r = m_name m /\ r_role r = m_role m /\
      r_description r = m_description m /\
      exists s, similarity_score r = Fin s /\
        s == Qmin ((1 # 5) * inject_Z (Z.of_nat (List.length
                (filter (fun term => JS.includes (memberText m) term)
                        (searchTerms "React developer"))))) 1.
Proof.
  eexists; eexists.
  assert (Hs : performTextSearch (Sample.backend true false false) "React developer" (Fin 10) []
               = (Ok (sort_by by_score_desc
                        (map (score_member ["react"; "developer"]) [Sample.alice; Sample.carol])),
                  [CallSelect (or_filter ["react"; "developer"]) (Fin 10)]))
    by (vm_compute; reflexivity).
  split; [exact Hs|].
  exact (text_search_score _ _ _ _ _ _ Hs).
Defined.

(** ** All-zero embeddings *)

(** C5 (code bug): a member whose stored embedding is all zeros has a NaN
    cosine distance; [match_members] keeps it ([NaN >= 0.1] holds in
    PostgreSQL) and orders it last, and the response for "React developer"
    lists the score 1 followed by the score NaN, a pair that is not in
    non-increasing order. *)
Lemma zero_embedding_breaks_score_order :
  exists rs tr,
    serve Sample.backend_zero Sample.env (post "React developer" LAbsent) =
      (Ok (mkResponse 200 jsonHeaders
             (RSuccess "React developer" rs 2 (now Sample.env))), tr) /\
    map r_id rs = [1; 4]%Z /\
    map similarity_score rs = [Fin 1; NaN] /\
    ~ score_desc (nth 0 rs (score_member [] Sample.dave))
                 (nth 1 rs (score_member [] Sample.dave)).
Proof.
  eexists; eexists. split; [vm_compute; reflexivity|].
  split; [vm_compute; reflexivity|]. split; [vm_compute; reflexivity|].
  vm_compute. discriminate.
Qed.

(** C6 (code bug): on the same run the member with the all-zero
    embedding comes back with the score NaN, which is not in [[0, 1]]. *)
Lemma zero_embedding_score_not_in_unit :
  exists rs tr,
    serve Sample.backend_zero Sample.env (post "React developer" LAbsent) =
      (Ok (mkResponse 200 jsonHeaders
             (RSuccess "React developer" rs 2 (now Sample.env))), tr) /\
    exists r, In r rs /\ r_id r = 4%Z /\ similarity_score r = NaN /\
      ~ in_unit (similarity_score r).
Proof.
  eexists; eexists. split; [vm_compute; reflexivity|].
  exists (transform_match (mkMatchRow Sample.dave NaN NaN)).
  split; [vm_compute; right; left; reflexivity|].
  split; [reflexivity|]. split; [reflexivity|].
  intros [q [Hq _]]. discriminate.
Qed.

(** C7 (code bug): [match_members] with the query vector [[1, 0]] returns,
    after the exact match, the member whose embedding is all zeros, with a
    NaN similarity that is not at least 0.1; with the all-zero query
    vector it returns every member that has an embedding, each with a NaN
    similarity. *)
Lemma zero_vector_rows_pass_threshold :
  SQL.match_members Sample.backend_zero [1; 0] (Some 10%Z) (1 # 10) =
    Some [mkMatchRow Sample.alice (Fin 1) (Fin 0); mkMatchRow Sample.dave NaN NaN] /\
  F64.ge NaN (Fin (1 # 10)) = false /\
  SQL.match_members Sample.backend_zero [0; 0] (Some 10%Z) (1 # 10) =
    Some [mkMatchRow Sample.bob NaN NaN; mkMatchRow Sample.alice NaN NaN;
          mkMatchRow Sample.dave NaN NaN].
Proof.
  split; [vm_compute; reflexivity|]. split; [reflexivity|].
  vm_compute; reflexivity.
Qed.

(** ** String helpers *)

Lemma string_compare_trans_le (a b c : string) :
  String.compare a b <> Gt -> String.compare b c <> Gt -> String.compare a c <> Gt.
Proof.
  revert b c; induction a as [|x a IH]; intros [|y b] [|z c]; simpl; try congruence.
  unfold Ascii.compare.
  destruct (N.compare (N_of_ascii x) (N_of_ascii y)) eqn:Exy;
  destruct (N.compare (N_of_ascii y) (N_of_ascii z)) eqn:Eyz;
  destruct (N.compare (N_of_ascii x) (N_of_ascii z)) eqn:Exz; try congruence;
  rewrite ?N.compare_eq_iff, ?N.compare_lt_iff, ?N.compare_gt_iff in *; try lia.
  intros H1 H2. apply (IH b c); assumption.
Qed.

Lemma string_leb_trans (a b c : string) :
  String.leb a b = true -> String.leb b c = true -> String.leb a c = true.
Proof.
  unfold String.leb.
  destruct (String.compare a b) eqn:E1; try discriminate;
  destruct (String.compare b c) eqn:E2; try discriminate;
  destruct (String.compare a c) eqn:E3; try reflexivity;
  exfalso; refine (string_compare_trans_le a b c _ _ E3); congruence.
Qed.

Lemma str_app_nil_r (s : string) : (s ++ "")%string = s.
Proof. induction s as [|c s IH]; simpl; congruence. Qed.

Lemma str_app_assoc (s t u : string) : (s ++ (t ++ u))%string = ((s ++ t) ++ u)%string.
Proof. induction s as [|c s IH]; simpl; congruence. Qed.

Lemma rev_str_app (s t : string) :
  JS.rev_str (s ++ t) = (JS.rev_str t ++ JS.rev_str s)%string.
Proof.
  induction s as [|c s IH]; simpl.
  - now rewrite str_app_nil_r.
  - rewrite IH. apply eq_sym, str_app_assoc.
Qed.

Lemma rev_str_involutive (s : string) : JS.rev_str (JS.rev_str s) = s.
Proof.
  induction s as [|c s IH]; simpl; [reflexivity|].
  rewrite rev_str_app, IH. reflexivity.
Qed.

Lemma trim_start_head (s : string) :
  JS.trim_start s = EmptyString \/
  exists c t, JS.trim_start s = String c t /\ JS.is_ws c = false.
Proof.
  induction s as [|c s IH]; simpl; [now left|].
  destruct (JS.is_ws c) eqn:E; [exact IH|right; eauto].
Qed.

Lemma trim_start_suffix (s : string) : exists p, s = (p ++ JS.trim_start s)%string.
Proof.
  induction s as [|c s [p IH]]; simpl; [now exists EmptyString|].
  destruct (JS.is_ws c); [exists (String c p); simpl; congruence|now exists EmptyString].
Qed.

Lemma trim_start_fixed (s : string) :
  (s = EmptyString \/ exists c t, s = String c t /\ JS.is_ws c = false) ->
  JS.trim_start s = s.
Proof. intros [->|[c [t [-> E]]]]; simpl; [reflexivity|now rewrite E]. Qed.

Lemma trim_idempotent (s : string) : JS.trim (JS.trim s) = JS.trim s.
Proof.
  unfold JS.trim.
  set (u := JS.trim_start s). set (v := JS.trim_start (JS.rev_str u)).
  assert (Hv : JS.trim_start (JS.rev_str v) = JS.rev_str v).
  { destruct (trim_start_suffix (JS.rev_str u)) as [p Hp]. fold v in Hp.
    apply (f_equal JS.rev_str) in Hp. rewrite rev_str_involutive, rev_str_app in Hp.
    apply trim_start_fixed.
    destruct (JS.rev_str v) as [|c t] eqn:E; [now left|right; exists c, t; split; [reflexivity|]].
    destruct (trim_start_head s) as [Hu|[c' [t' [Hu Hc]]]]; fold u in Hu.
    - rewrite Hu in Hp. discriminate.
    - rewrite Hu in Hp. simpl in Hp. inversion Hp; subst. exact Hc. }
  rewrite Hv, rev_str_involutive.
  rewrite (trim_start_fixed v); [reflexivity|]. apply trim_start_head.
Qed.

Lemma lower_char_idempotent (c : ascii) : JS.lower_char (JS.lower_char c) = JS.lower_char c.
Proof. destruct c as [[] [] [] [] [] [] [] []]; reflexivity. Qed.

Lemma toLowerCase_idempotent (s : string) :
  JS.toLowerCase (JS.toLowerCase s) = JS.toLowerCase s.
Proof. induction s as [|c s IH]; simpl; [reflexivity|]. now rewrite lower_char_idempotent, IH. Qed.


(** ** Splitting the query into terms *)

Lemma split_aux_app_sep (sep : ascii) (s1 s2 cur : string) :
  JS.split_aux sep (String.append s1 (String sep s2)) cur
  = JS.split_aux sep s1 cur ++ JS.split_aux sep s2 EmptyString.
Proof.
  revert cur; induction s1 as [|c s1 IH]; intro cur; simpl.
  - now rewrite Ascii.eqb_refl.
  - destruct (Ascii.eqb c sep); simpl; now rewrite IH.
Qed.

Lemma split_aux_piece_length (sep : ascii) (s cur t : string) :
  In t (JS.split_aux sep s cur) ->
  (JS.length t <= JS.length cur + JS.length s)%nat.
Proof.
  revert cur; induction s as [|c s IH]; intros cur Ht; simpl in *.
  - destruct Ht as [<-|[]]. lia.
  - destruct (Ascii.eqb c sep).
    + destruct Ht as [<-|Ht]; [lia|]. apply IH in Ht. simpl in Ht. lia.
    + apply IH in Ht. rewrite JS_length_append in Ht. simpl in Ht. lia.
Qed.

Lemma toLowerCase_append (s t : string) :
  JS.toLowerCase (String.append s t) = String.append (JS.toLowerCase s) (JS.toLowerCase t).
Proof. induction s as [|c s IH]; simpl; congruence. Qed.

Lemma lower_char_units (c : ascii) : JS.utf16_units (JS.lower_char c) = JS.utf16_units c.
Proof. destruct c as [[] [] [] [] [] [] [] []]; reflexivity. Qed.

Lemma toLowerCase_length (s : string) :
  JS.length (JS.toLowerCase s) = JS.length s.
Proof. induction s as [|c s IH]; simpl; [reflexivity|]. now rewrite lower_char_units, IH. Qed.

(** Pieces of at most two UTF-16 units are dropped from the terms. *)
Lemma searchTerms_append_short (q p : string) :
  (JS.length p <= 2)%nat ->
  searchTerms (q ++ " " ++ p)%string = searchTerms q.
Proof.
  intro Hp. unfold searchTerms, JS.split.
  rewrite toLowerCase_append.
  change (JS.toLowerCase (" " ++ p)%string) with (String " " (JS.toLowerCase p)).
  rewrite split_aux_app_sep, filter_app.
  rewrite (filter_ext_in _ (fun _ => false) (JS.split_aux " " (JS.toLowerCase p) EmptyString)),
    filter_false.
  - apply app_nil_r.
  - intros t Ht. apply split_aux_piece_length in Ht.
    rewrite toLowerCase_length in Ht. simpl in Ht.
    apply Nat.ltb_ge. lia.
Qed.

(** The terms are lowercase. *)
Lemma split_aux_lower (sep : ascii) (s cur t : string) :
  JS.toLowerCase s = s -> JS.toLowerCase cur = cur ->
  In t (JS.split_aux sep s cur) -> JS.toLowerCase t = t.
Proof.
  revert cur; induction s as [|c s IH]; intros cur Hs Hc Ht; simpl in *.
  - destruct Ht as [<-|[]]. exact Hc.
  - inversion Hs as [[Hc' Hs']].
    destruct (Ascii.eqb c sep).
    + destruct Ht as [<-|Ht]; [exact Hc|]. now apply (IH EmptyString).
    + apply (IH (cur ++ String c EmptyString)%string); auto.
      rewrite toLowerCase_append, Hc. simpl. now rewrite Hc'.
Qed.

Lemma searchTerms_lower (q t : string) :
  In t (searchTerms q) -> JS.toLowerCase t = t.
Proof.
  unfold searchTerms, JS.split. intro Ht. apply filter_In in Ht as [Ht _].
  apply (split_aux_lower _ _ _ _ (toLowerCase_idempotent q) eq_refl Ht).
Qed.

(** ** Reading the [or] filter *)

Lemma plain_char_facts (c : ascii) :
  plain_char c = true ->
  PostgREST.value_end c = false /\ Ascii.eqb c "{" = false /\ Ascii.eqb c "}" = false /\
  Ascii.eqb c "," = false /\ Ascii.eqb c "*" = false /\ Ascii.eqb c "%" = false /\
  Ascii.eqb c "_" = false /\ Ascii.eqb c "\" = false /\
  Ascii.eqb c PostgREST.dq_char = false /\ PostgREST.arr_space c = false.
Proof.
  intro H. destruct c as [[] [] [] [] [] [] [] []]; vm_compute in H;
    try discriminate H; vm_compute; repeat split.
Qed.

Lemma plain_cons (c : ascii) (t : string) :
  forallb plain_char (list_ascii_of_string (String c t)) = true ->
  plain_char c = true /\ forallb plain_char (list_ascii_of_string t) = true.
Proof. simpl. apply andb_prop. Qed.

Lemma read_until_app (stop : ascii -> bool) (t r : string) :
  forallb (fun c => negb (stop c)) (list_ascii_of_string t) = true ->
  PostgREST.read_until stop (t ++ r) =
    let (a, b) := PostgREST.read_until stop r in ((t ++ a)%string, b).
Proof.
  induction t as [|c t IH]; intro Ht; simpl in *.
  - destruct (PostgREST.read_until stop r); reflexivity.
  - apply andb_prop in Ht as [Hc Ht]. apply negb_true_iff in Hc.
    rewrite Hc, (IH Ht). destruct (PostgREST.read_until stop r); reflexivity.
Qed.

Lemma plain_no_stop (stop : ascii -> bool) (t : string) :
  (forall c, plain_char c = true -> stop c = false) ->
  forallb plain_char (list_ascii_of_string t) = true ->
  forallb (fun c => negb (stop c)) (list_ascii_of_string t) = true.
Proof.
  intro Hs. induction t as [|c t IH]; intro Ht; simpl in *; [reflexivity|].
  apply andb_prop in Ht as [Hc Ht]. now rewrite (Hs c Hc), IH.
Qed.

Lemma read_until_rest (stop : ascii -> bool) (rest : string) :
  stop ","%char = true -> rest_ok rest -> PostgREST.read_until stop rest = (EmptyString, rest).
Proof.
  intros Hs [->|[r ->]]; simpl; [reflexivity|]. now rewrite Hs.
Qed.

Lemma single_val_pct (t rest : string) :
  forallb plain_char (list_ascii_of_string t) = true -> rest_ok rest ->
  PostgREST.single_val ("%" ++ t ++ "%" ++ rest) = (("%" ++ t ++ "%")%string, rest).
Proof.
  intros Ht Hr. unfold PostgREST.single_val. cbn [String.append].
  change (Ascii.eqb "%" PostgREST.dq_char) with false.
  change (PostgREST.pg_array (String "%" (t ++ "%" ++ rest)))
    with (@None (string * string)).
  cbv iota beta.
  change (String "%" (t ++ "%" ++ rest)) with ("%" ++ (t ++ ("%" ++ rest)))%string.
  rewrite (read_until_app _ "%" (t ++ "%" ++ rest)) by reflexivity.
  rewrite (read_until_app _ t ("%" ++ rest)).
  2: { apply plain_no_stop; [|exact Ht]. intros c Hc. apply plain_char_facts in Hc. tauto. }
  rewrite (read_until_app _ "%" rest) by reflexivity.
  rewrite read_until_rest; [|reflexivity|exact Hr].
  now rewrite str_app_nil_r.
Qed.

Lemma single_val_brace (t rest : string) :
  forallb plain_char (list_ascii_of_string t) = true -> rest_ok rest ->
  PostgREST.single_val ("{" ++ t ++ "}" ++ rest) = (("{" ++ t ++ "}")%string, rest).
Proof.
  intros Ht Hr. unfold PostgREST.single_val, PostgREST.pg_array. cbn [String.append].
  change (Ascii.eqb "{" PostgREST.dq_char) with false.
  change (Ascii.eqb "{" "{") with true. cbv iota beta.
  rewrite (read_until_app _ t ("}" ++ rest)).
  2: { apply plain_no_stop; [|exact Ht]. intros c Hc. apply plain_char_facts in Hc.
       destruct Hc as [_ [-> [-> _]]]. reflexivity. }
  simpl. now rewrite str_app_nil_r.
Qed.

Lemma parse_cond_fields (f op v rest : string) :
  forallb (fun c => negb (Ascii.eqb "." c)) (list_ascii_of_string f) = true ->
  forallb (fun c => negb (Ascii.eqb "." c)) (list_ascii_of_string op) = true ->
  PostgREST.parse_cond (f ++ String "." (op ++ String "." (v ++ rest))) =
    let (x, r3) := PostgREST.single_val (v ++ rest) in
    Some (PostgREST.mkCond f op x, r3).
Proof.
  assert (Hru : forall g r,
             forallb (fun c => negb (Ascii.eqb "." c)) (list_ascii_of_string g) = true ->
             PostgREST.read_until (Ascii.eqb ".") (g ++ String "." r) = (g, String "." r)).
  { induction g as [|c g IH]; intros r Hg; simpl in *; [reflexivity|].
    apply andb_prop in Hg as [Hc Hg]. apply negb_true_iff in Hc.
    rewrite Hc, (IH r Hg). reflexivity. }
  intros Hf Hop. unfold PostgREST.parse_cond.
  rewrite (Hru f _ Hf). cbv iota beta. rewrite (Hru op _ Hop). reflexivity.
Qed.

(** Each of the four conditions of a plain term reads back as its
    [term_conds] entry. *)
Lemma term_conditions_parse (t : string) :
  forallb plain_char (list_ascii_of_string t) = true ->
  Forall2 (fun s c => forall rest, rest_ok rest ->
             PostgREST.parse_cond (s ++ rest) = Some (c, rest))
          (term_conditions t) (term_conds t).
Proof.
  intro Ht.
  repeat constructor; intros rest Hr.
  - change (("name.ilike.%" ++ t ++ "%") ++ rest)%string
      with ("name" ++ String "." ("ilike" ++ String "." ((String "%" (t ++ "%")) ++ rest)))%string.
    rewrite parse_cond_fields by reflexivity.
    change (String "%" (t ++ "%") ++ rest)%string with ("%" ++ (t ++ "%") ++ rest)%string.
    rewrite <- str_app_assoc, (single_val_pct t rest Ht Hr). reflexivity.
  - change (("role.ilike.%" ++ t ++ "%") ++ rest)%string
      with ("role" ++ String "." ("ilike" ++ String "." ((String "%" (t ++ "%")) ++ rest)))%string.
    rewrite parse_cond_fields by reflexivity.
    change (String "%" (t ++ "%") ++ rest)%string with ("%" ++ (t ++ "%") ++ rest)%string.
    rewrite <- str_app_assoc, (single_val_pct t rest Ht Hr). reflexivity.
  - change (("description.ilike.%" ++ t ++ "%") ++ rest)%string
      with ("description" ++ String "." ("ilike" ++ String "." ((String "%" (t ++ "%")) ++ rest)))%string.
    rewrite parse_cond_fields by reflexivity.
    change (String "%" (t ++ "%") ++ rest)%string with ("%" ++ (t ++ "%") ++ rest)%string.
    rewrite <- str_app_assoc, (single_val_pct t rest Ht Hr). reflexivity.
  - change (("skills.cs.{" ++ t ++ "}") ++ rest)%string
      with ("skills" ++ String "." ("cs" ++ String "." ((String "{" (t ++ "}")) ++ rest)))%string.
    rewrite parse_cond_fields by reflexivity.
    change (String "{" (t ++ "}") ++ rest)%string with ("{" ++ (t ++ "}") ++ rest)%string.
    rewrite <- str_app_assoc, (single_val_brace t rest Ht Hr). reflexivity.
Qed.

Lemma parse_conds_join (strs : list string) (conds : list PostgREST.Cond) (fuel : nat) :
  Forall2 (fun s c => forall rest, rest_ok rest ->
             PostgREST.parse_cond (s ++ rest) = Some (c, rest)) strs conds ->
  strs <> [] -> (List.length strs <= fuel)%nat ->
  PostgREST.parse_conds fuel (JS.join "," strs) = Some conds.
Proof.
  intro H. revert fuel. induction H as [|s c strs conds Hsc H IH]; intros fuel Hne Hf;
    [contradiction|].
  destruct fuel as [|fuel]; [simpl in Hf; lia|].
  destruct strs as [|s2 strs].
  - inversion H; subst. simpl.
    pose proof (Hsc EmptyString (or_introl eq_refl)) as Hp.
    rewrite str_app_nil_r in Hp. now rewrite Hp.
  - change (JS.join "," (s :: s2 :: strs)) with (s ++ String "," (JS.join "," (s2 :: strs)))%string.
    pose proof (IH fuel ltac:(discriminate) ltac:(simpl in Hf |- *; lia)) as IH'.
    set (J := JS.join "," (s2 :: strs)) in *.
    simpl PostgREST.parse_conds.
    rewrite (Hsc _ (or_intror (ex_intro _ J eq_refl))).
    change (Ascii.eqb "," ",") with true. cbv iota beta.
    now rewrite IH'.
Qed.

Lemma string_length_append (s t : string) :
  String.length (s ++ t) = (String.length s + String.length t)%nat.
Proof. induction s as [|c s IH]; simpl; congruence. Qed.

Lemma join_length_count (l : list string) :
  (List.length l <= S (String.length (JS.join "," l)))%nat.
Proof.
  induction l as [|s [|s2 l] IH]; simpl; [lia|lia|].
  change (JS.join "," (s2 :: l)) with (JS.join "," (s2 :: l)) in *.
  rewrite string_length_append. simpl in IH |- *. lia.
Qed.

(** ** LIKE on a plain pattern *)

Lemma like_pct (p s : string) :
  PostgREST.like (String "%" p) s =
  PostgREST.like p s ||
  match s with EmptyString => false | String _ s' => PostgREST.like (String "%" p) s' end.
Proof. destruct s; reflexivity. Qed.

Lemma like_pct_end (s : string) : PostgREST.like (String "%" EmptyString) s = true.
Proof.
  induction s as [|c s IH]; [reflexivity|]. rewrite like_pct, IH. apply orb_true_r.
Qed.

Lemma like_prefix (t s : string) :
  forallb plain_char (list_ascii_of_string t) = true ->
  PostgREST.like (t ++ "%") s = prefix t s.
Proof.
  revert s; induction t as [|c t IH]; intros s Ht.
  - simpl. rewrite like_pct_end. destruct s; reflexivity.
  - apply plain_cons in Ht as [Hc Ht].
    pose proof (plain_char_facts c Hc) as [_ [_ [_ [_ [_ [H1 [H2 [H3 _]]]]]]]].
    cbn [String.append PostgREST.like]. rewrite H1, H2, H3.
    destruct s as [|d s]; [reflexivity|]. cbn [prefix].
    destruct (ascii_dec c d) as [->|Hne].
    + rewrite Ascii.eqb_refl. simpl. apply IH, Ht.
    + replace (Ascii.eqb d c) with false; [reflexivity|].
      symmetry. apply Ascii.eqb_neq. congruence.
Qed.

(** [s LIKE '%t%'] is [s.includes(t)] for a plain [t]. *)
Lemma like_includes (t s : string) :
  forallb plain_char (list_ascii_of_string t) = true ->
  PostgREST.like ("%" ++ t ++ "%") s = JS.includes s t.
Proof.
  intro Ht. induction s as [|c s IH].
  - change ("%" ++ t ++ "%")%string with (String "%" (t ++ "%")).
    rewrite like_pct, like_prefix by exact Ht. simpl. now rewrite orb_false_r.
  - change ("%" ++ t ++ "%")%string with (String "%" (t ++ "%")) in *.
    rewrite like_pct, like_prefix, IH by exact Ht. reflexivity.
Qed.

Lemma star_to_percent_plain (t : string) :
  forallb plain_char (list_ascii_of_string t) = true ->
  PostgREST.star_to_percent t = t.
Proof.
  induction t as [|c t IH]; intro Ht; [reflexivity|].
  apply plain_cons in Ht as [Hc Ht]. simpl. rewrite IH by exact Ht.
  pose proof (plain_char_facts c Hc) as [_ [_ [_ [_ [-> _]]]]]. reflexivity.
Qed.

Lemma star_to_percent_app (s t : string) :
  PostgREST.star_to_percent (s ++ t) =
  (PostgREST.star_to_percent s ++ PostgREST.star_to_percent t)%string.
Proof. induction s as [|c s IH]; simpl; congruence. Qed.

Lemma like_ok_plain (t r : string) :
  forallb plain_char (list_ascii_of_string t) = true ->
  PostgREST.like_ok (t ++ r) = PostgREST.like_ok r.
Proof.
  induction t as [|c t IH]; intro Ht; [reflexivity|].
  apply plain_cons in Ht as [Hc Ht]. simpl.
  pose proof (plain_char_facts c Hc) as [_ [_ [_ [_ [_ [_ [_ [-> _]]]]]]]].
  now apply IH.
Qed.

(** ** The array literal of one plain term *)

Lemma arr_scan_unq (u cur : string) (acc : list (option string)) :
  forallb plain_char (list_ascii_of_string u) = true ->
  PostgREST.arr_scan (u ++ "}") (PostgREST.AUnq acc cur EmptyString false false) =
  Some (acc ++ [PostgREST.bare_element (cur ++ u) false]).
Proof.
  revert cur; induction u as [|c u IH]; intros cur Hu.
  - simpl. now rewrite str_app_nil_r.
  - apply plain_cons in Hu as [Hc Hu].
    pose proof (plain_char_facts c Hc)
      as [_ [H1 [H2 [H3 [_ [_ [_ [H4 [H5 H6]]]]]]]]].
    cbn [String.append PostgREST.arr_scan PostgREST.arr_step].
    rewrite H4, H3, H2, H5, H1, H6. cbn [orb negb].
    rewrite IH by exact Hu. simpl. now rewrite <- str_app_assoc.
Qed.

Lemma parse_array_plain (t : string) :
  plain_term t = true -> t <> EmptyString ->
  PostgREST.parse_array ("{" ++ t ++ "}") = Some [Some t].
Proof.
  unfold plain_term. intros Hp Hne. apply andb_prop in Hp as [Ht Hnull].
  destruct t as [|c u]; [contradiction|].
  pose proof Ht as Ht'. apply plain_cons in Ht' as [Hc Hu].
  pose proof (plain_char_facts c Hc)
    as [_ [H1 [H2 [H3 [_ [_ [_ [H4 [H5 H6]]]]]]]]].
  cbn [String.append PostgREST.parse_array PostgREST.arr_scan PostgREST.arr_step].
  change (Ascii.eqb "{" "{") with true. cbv iota beta.
  unfold PostgREST.element_start. rewrite H6, H2, H5, H1, H3, H4. cbn [orb].
  rewrite arr_scan_unq by exact Hu.
  apply negb_true_iff in Hnull.
  unfold PostgREST.bare_element. cbn [negb andb app String.append]. now rewrite Hnull.
Qed.

(** ** The compiled conditions *)

Lemma toLowerCase_pct (t : string) :
  JS.toLowerCase t = t -> JS.toLowerCase ("%" ++ t ++ "%") = ("%" ++ t ++ "%")%string.
Proof.
  intro Ht. simpl. rewrite toLowerCase_append, Ht. reflexivity.
Qed.

Lemma compile_ilike (f : string) (get : MemberRow -> option string) (t : string) :
  PostgREST.column f = Some (PostgREST.ColText get) ->
  forallb plain_char (list_ascii_of_string t) = true -> JS.toLowerCase t = t ->
  exists p, PostgREST.compile (PostgREST.mkCond f "ilike" ("%" ++ t ++ "%")) = Some p /\
    forall m, p m = match get m with
                    | Some v => JS.includes (JS.toLowerCase v) t
                    | None => false
                    end.
Proof.
  intros Hf Ht Hl. unfold PostgREST.compile. cbn [PostgREST.c_field PostgREST.c_op PostgREST.c_value].
  rewrite Hf. change (String.eqb "ilike" "ilike") with true. cbv iota beta.
  change ("%" ++ t ++ "%")%string with ("%" ++ (t ++ "%"))%string.
  rewrite !star_to_percent_app, (star_to_percent_plain t Ht).
  change (PostgREST.star_to_percent "%") with "%".
  change (PostgREST.like_ok ("%" ++ (t ++ "%"))) with (PostgREST.like_ok (t ++ "%")).
  rewrite (like_ok_plain t "%" Ht).
  change (PostgREST.like_ok "%") with true. cbv iota beta.
  eexists; split; [reflexivity|]. intro m. cbv beta.
  destruct (get m) as [v|]; [|reflexivity].
  rewrite (toLowerCase_pct t Hl). now apply like_includes.
Qed.

Lemma compile_cs (t : string) :
  plain_term t = true -> t <> EmptyString ->
  exists p, PostgREST.compile (PostgREST.mkCond "skills" "cs" ("{" ++ t ++ "}")) = Some p /\
    forall m, p m = match m_skills m with
                    | Some l => existsb (String.eqb t) l
                    | None => false
                    end.
Proof.
  intros Hp Hne. unfold PostgREST.compile. cbn [PostgREST.c_field PostgREST.c_op PostgREST.c_value].
  change (PostgREST.column "skills") with (Some (PostgREST.ColArray m_skills)).
  change (String.eqb "cs" "cs") with true. cbv iota beta.
  rewrite (parse_array_plain t Hp Hne).
  eexists; split; [reflexivity|]. intro m. cbv beta.
  destruct (m_skills m) as [l|]; [|reflexivity]. simpl. apply andb_true_r.
Qed.

Lemma compile_term_conds (t : string) :
  plain_term t = true -> t <> EmptyString -> JS.toLowerCase t = t ->
  exists ps, PostgREST.compile_all (term_conds t) = Some ps /\
    forall m, existsb (fun p => p m) ps = term_matches t m.
Proof.
  intros Hp Hne Hl. pose proof Hp as Ht. unfold plain_term in Ht.
  apply andb_prop in Ht as [Ht _].
  destruct (compile_ilike "name" (fun m => Some (m_name m)) t eq_refl Ht Hl) as [p1 [E1 P1]].
  destruct (compile_ilike "role" (fun m => Some (m_role m)) t eq_refl Ht Hl) as [p2 [E2 P2]].
  destruct (compile_ilike "description" m_description t eq_refl Ht Hl) as [p3 [E3 P3]].
  destruct (compile_cs t Hp Hne) as [p4 [E4 P4]].
  exists [p1; p2; p3; p4]. split.
  - unfold term_conds. cbn [PostgREST.compile_all]. now rewrite E1, E2, E3, E4.
  - intro m. cbn [existsb]. rewrite P1, P2, P3, P4, orb_false_r.
    unfold term_matches. rewrite !orb_assoc. reflexivity.
Qed.

(** ** The [or] filter of plain terms *)

Lemma compile_all_app (a b : list PostgREST.Cond) pa pb :
  PostgREST.compile_all a = Some pa -> PostgREST.compile_all b = Some pb ->
  PostgREST.compile_all (a ++ b) = Some (pa ++ pb).
Proof.
  revert pa; induction a as [|c a IH]; intros pa Ha Hb; simpl in *.
  - inversion Ha; subst. exact Hb.
  - destruct (PostgREST.compile c) as [p|]; [|discriminate].
    destruct (PostgREST.compile_all a) as [pa'|]; [|discriminate].
    inversion Ha; subst. now rewrite (IH pa' eq_refl Hb).
Qed.

Lemma compile_all_terms (ts : list string) :
  Forall (fun t => plain_term t = true /\ t <> EmptyString /\ JS.toLowerCase t = t) ts ->
  exists ps, PostgREST.compile_all (flat_map term_conds ts) = Some ps /\
    forall m, existsb (fun p => p m) ps = existsb (fun t => term_matches t m) ts.
Proof.
  induction 1 as [|t ts [Hp [Hne Hl]] _ [ps [Hps Eps]]].
  - exists []. split; reflexivity.
  - destruct (compile_term_conds t Hp Hne Hl) as [pt [Hpt Ept]].
    exists (pt ++ ps). split.
    + cbn [flat_map]. now apply compile_all_app.
    + intro m. rewrite existsb_app, Ept, Eps. reflexivity.
Qed.

Lemma orConditions_parse (ts : list string) :
  Forall (fun t => plain_term t = true) ts ->
  Forall2 (fun s c => forall rest, rest_ok rest ->
             PostgREST.parse_cond (s ++ rest) = Some (c, rest))
          (orConditions ts) (flat_map term_conds ts).
Proof.
  induction 1 as [|t ts Ht _ IH]; [constructor|].
  unfold orConditions in *. cbn [flat_map]. apply Forall2_app; [|exact IH].
  apply term_conditions_parse. unfold plain_term in Ht.
  now apply andb_prop in Ht as [Ht _].
Qed.

Lemma row_filter_terms (ts : list string) :
  ts <> [] ->
  Forall (fun t => plain_term t = true /\ t <> EmptyString /\ JS.toLowerCase t = t) ts ->
  exists p, PostgREST.row_filter (JS.join "," (orConditions ts)) = Some p /\
    forall m, p m = existsb (fun t => term_matches t m) ts.
Proof.
  intros Hne Hts.
  destruct (compile_all_terms ts Hts) as [ps [Hps Eps]].
  assert (Hparse : PostgREST.parse_or (JS.join "," (orConditions ts))
                   = Some (flat_map term_conds ts)).
  { unfold PostgREST.parse_or. apply parse_conds_join.
    - apply orConditions_parse. eapply Forall_impl; [|exact Hts]. now intros t [H _].
    - destruct ts as [|t ts]; [contradiction|]. discriminate.
    - apply join_length_count. }
  unfold PostgREST.row_filter. rewrite Hparse, Hps.
  eexists; split; [reflexivity|]. exact Eps.
Qed.

Lemma filter_all_true {A} (l : list A) : List.filter (fun _ => true) l = l.
Proof. induction l as [|x l IH]; simpl; congruence. Qed.

Lemma select_plain_terms (be : Backend) (ts : list string) (lim : Num) :
  Forall (fun t => plain_term t = true /\ t <> EmptyString /\ JS.toLowerCase t = t) ts ->
  PostgREST.select be (or_filter ts) lim =
  PostgREST.page be lim
    (List.filter (fun m => match ts with
                           | [] => true
                           | _ => existsb (fun t => term_matches t m) ts
                           end) (be_members be)).
Proof.
  intro Hts. destruct ts as [|t ts'] eqn:Ets.
  - simpl. now rewrite filter_all_true.
  - rewrite <- Ets in Hts |- *.
    assert (Hne : ts <> []) by (rewrite Ets; discriminate).
    destruct (row_filter_terms ts Hne Hts) as [p [Hp Ep]].
    assert (Hf : or_filter ts = Some (JS.join "," (orConditions ts)))
      by (rewrite Ets; reflexivity).
    rewrite Hf. unfold PostgREST.select. rewrite Hp. f_equal.
    apply filter_ext. intro m. rewrite Ep, Ets. reflexivity.
Qed.

Lemma searchTerms_props (q : string) :
  forallb plain_term (searchTerms q) = true ->
  Forall (fun t => plain_term t = true /\ t <> EmptyString /\ JS.toLowerCase t = t)
         (searchTerms q).
Proof.
  intro H. apply Forall_forall. intros t Ht. split; [|split].
  - rewrite forallb_forall in H. now apply H.
  - intros ->. unfold searchTerms in Ht. apply filter_In in Ht as [_ Ht].
    discriminate.
  - exact (searchTerms_lower q t Ht).
Qed.

(** C9 (counterexample): the query is cut at the space character only, so
    ["react<TAB>node"] is one term, not the white-space separated terms
    ["react"] and ["node"]; and the [skills] condition is array
    containment, not a substring test: the member [erin], whose only skill
    is ["reactjs"], holds ["react"] as a substring but the text search for
    "react" does not select it. *)
Lemma split_and_skills_counterexample :
  searchTerms tab_query = [tab_query] /\
  whitespace_terms tab_query = ["react"; "node"] /\
  searchTerms tab_query <> whitespace_terms tab_query /\
  substring_match (searchTerms "react") Sample.erin = true /\
  be_members Sample.backend_erin = [Sample.erin] /\
  PostgREST.select Sample.backend_erin (or_filter (searchTerms "react")) (Fin 10) = Some [].
Proof.
  split; [reflexivity|]. split; [reflexivity|]. split; [vm_compute; discriminate|].
  split; [vm_compute; reflexivity|]. split; [reflexivity|].
  vm_compute. reflexivity.
Qed.

(** C9 (amended): the terms are exactly the pieces of the lowercased query
    cut at the space character that are longer than 2 UTF-16 units; when
    every term is plain (none of [, ( ) { } * % _ \], the double quote or
    white space, and not [null]), the rows the select keeps are those for
    which some term is a substring of the lowercased name, role or
    description, or is one of the skills, and all rows when there is no
    term; and a piece of at most 2 units changes neither the terms, the
    filter nor any score. *)
Theorem text_terms_and_conditions (q : string) :
  (forall t, In t (searchTerms q) <->
     In t (JS.split " " (JS.toLowerCase q)) /\ (2 < JS.length t)%nat) /\
  (forallb plain_term (searchTerms q) = true ->
   forall be lim,
     PostgREST.select be (or_filter (searchTerms q)) lim =
     PostgREST.page be lim
       (List.filter (fun m => match searchTerms q with
                              | [] => true
                              | _ => existsb (fun t => term_matches t m) (searchTerms q)
                              end) (be_members be))) /\
  (forall p, (JS.length p <= 2)%nat ->
     searchTerms (q ++ " " ++ p)%string = searchTerms q /\
     or_filter (searchTerms (q ++ " " ++ p)%string) = or_filter (searchTerms q) /\
     forall text, text_score (searchTerms (q ++ " " ++ p)%string) text
                  = text_score (searchTerms q) text).
Proof.
  split; [|split].
  - intro t. unfold searchTerms. rewrite filter_In. now rewrite Nat.ltb_lt.
  - intros Hplain be lim. apply select_plain_terms, searchTerms_props, Hplain.
  - intros p Hp. rewrite (searchTerms_append_short q p Hp). auto.
Qed.

(* ------------------------------------------------------------------ *)
(** ** The trigger *)

(** The trigger raises for every new or updated row whose embedding is
    null, so an [INSERT] of such a row fails with the error of the
    [vector(...)] call, and an [UPDATE] fails as soon as one updated row
    has a null embedding; other statements go through unchanged. *)
Theorem trigger_rejects_null_embeddings (table : list MemberRow) (m : MemberRow)
    (i : Z) (f : MemberRow -> MemberRow) :
  Trigger.insert_member table m =
    match m_embedding m with
    | None => Err Trigger.vector_call_error
    | Some _ => Ok (table ++ [m])
    end /\
  Trigger.update_member table i f =
    if existsb (fun r => Z.eqb (m_id r) i &&
                         match m_embedding (f r) with None => true | Some _ => false end)
               table
    then Err Trigger.vector_call_error
    else Ok (map (fun r => if Z.eqb (m_id r) i then f r else r) table).
Proof.
  split.
  - unfold Trigger.insert_member, Trigger.generate_member_embedding.
    destruct (m_embedding m); reflexivity.
  - induction table as [|r rs IH]; [reflexivity|].
    cbn [Trigger.update_member existsb map]. rewrite IH.
    unfold Trigger.generate_member_embedding.
    destruct (Z.eqb (m_id r) i); cbn [andb orb];
      [destruct (m_embedding (f r)); cbn [orb]|];
      destruct (existsb _ rs); reflexivity.
Qed.

(* ------------------------------------------------------------------ *)
(** ** More about the search paths *)

Lemma semantic_trace be q lim tr r tr' :
  performSemanticSearch be q lim tr = (r, tr') ->
  (tr' = tr ++ [CallEmbed q] /\ exists e, r = Err e) \/
  tr' = tr ++ [CallEmbed q; CallRpc (F64.to_json lim) semantic_threshold].
Proof.
  unfold performSemanticSearch, generateEmbedding, rpc_match_members,
    bind, emit, ret, throw. intro H.
  destruct (be_embed be q) as [qe|];
    [|inversion H; subst; left; split; [reflexivity|eexists; reflexivity]].
  right. destruct (be_rpc_error be);
    [inversion H; subst; rewrite <- app_assoc; reflexivity|].
  destruct (rpc_call be qe (F64.to_json lim) semantic_threshold) as [[|row rows]|];
    inversion H; subst; rewrite <- app_assoc; reflexivity.
Qed.

Lemma text_trace be q lim tr r tr' :
  performTextSearch be q lim tr = (r, tr') ->
  tr' = tr ++ [CallSelect (or_filter (searchTerms q)) lim].
Proof.
  unfold performTextSearch, bind, emit, ret, throw.
  destruct (be_select_error be);
    [|destruct (PostgREST.select be (or_filter (searchTerms q)) lim)];
    intro H; inversion H; subst; reflexivity.
Qed.

Lemma semantic_ok_embed be q lim tr rs tr' :
  performSemanticSearch be q lim tr = (Ok rs, tr') ->
  exists qe rows, be_embed be q = Some qe /\
    rpc_call be qe (F64.to_json lim) semantic_threshold = Some rows /\
    rs = map transform_match rows.
Proof.
  unfold performSemanticSearch, generateEmbedding, rpc_match_members,
    bind, emit, ret, throw.
  destruct (be_embed be q) as [qe|]; [|discriminate].
  destruct (be_rpc_error be); [discriminate|].
  destruct (rpc_call be qe (F64.to_json lim) semantic_threshold) as [rows|] eqn:Hm;
    [|discriminate].
  intro H. exists qe, rows. split; [reflexivity|]. split; [exact Hm|].
  destruct rows; inversion H; reflexivity.
Qed.

(** The rows of [match_members]: in ascending distance, each a member
    with an embedding, its distance to the query, and a similarity
    [1 - distance] that PostgreSQL finds at least the threshold. *)
Lemma match_members_rows be qe n t rows :
  SQL.match_members be qe n t = Some rows ->
  StronglySorted (fun a b => F64.pg_le (distance a) (distance b) = true) rows /\
  forall row, In row rows -> exists e,
    In (mr_member row) (be_members be) /\ m_embedding (mr_member row) = Some e /\
    distance row = be_dist be e qe /\
    match_score row = SQL.one_minus (distance row) /\
    F64.pg_le (Fin t) (match_score row) = true.
Proof.
  unfold SQL.match_members.
  set (l := sort_by SQL.by_distance (flat_map (SQL.match_row be qe t) (be_members be))).
  assert (Hs : StronglySorted (fun a b => F64.pg_le (distance a) (distance b) = true) l).
  { apply (sort_by_sorted SQL.by_distance).
    - intros a b. apply pg_le_total.
    - intros a b c. apply pg_le_trans. }
  assert (Hin : forall row, In row l -> exists e,
    In (mr_member row) (be_members be) /\ m_embedding (mr_member row) = Some e /\
    distance row = be_dist be e qe /\
    match_score row = SQL.one_minus (distance row) /\
    F64.pg_le (Fin t) (match_score row) = true).
  { intros row Hr. apply sort_by_In, in_flat_map in Hr as [m [Hm Hr]].
    unfold SQL.match_row in Hr. destruct (m_embedding m) as [e|] eqn:He; [|destruct Hr].
    destruct (F64.pg_le (Fin t) (SQL.one_minus (be_dist be e qe))) eqn:Ht; [|destruct Hr].
    destruct Hr as [<-|[]]. exists e. cbn. auto. }
  unfold SQL.limit. destruct n as [k|].
  - destruct (k <? 0)%Z; [discriminate|]. intro H; inversion H; subst rows.
    split; [now apply StronglySorted_firstn|].
    intros row Hr. apply Hin, (In_firstn _ _ _ Hr).
  - intro H; inversion H; subst rows. auto.
Qed.

Lemma sort_by_all_le {A} (le : A -> A -> bool) (l : list A) :
  (forall a b, In a l -> In b l -> le a b = true) -> sort_by le l = l.
Proof.
  induction l as [|x l IH]; intro Hle; simpl; [reflexivity|].
  rewrite IH by (intros a b Ha Hb; apply Hle; right; assumption).
  destruct l as [|y l]; simpl; [reflexivity|].
  rewrite Hle by (simpl; auto). reflexivity.
Qed.

Lemma searchTerms_repeat (q : string) :
  searchTerms (q ++ " " ++ q)%string = searchTerms q ++ searchTerms q.
Proof.
  unfold searchTerms, JS.split. rewrite toLowerCase_append.
  change (JS.toLowerCase (" " ++ q)%string) with (String " " (JS.toLowerCase q)).
  rewrite split_aux_app_sep, filter_app. reflexivity.
Qed.

(** ** Orders on the results *)

Lemma Qle_bool_sub (x y : Q) : Qle_bool (y - x) 0 = Qle_bool y x.
Proof.
  apply eq_true_iff_eq. rewrite !Qle_bool_iff. split; intro; lra.
Qed.

Lemma by_score_desc_fin (a b : SearchResult) (x y : Q) :
  similarity_score a = Fin x -> similarity_score b = Fin y ->
  by_score_desc a b = Qle_bool y x.
Proof.
  intros Ha Hb. unfold by_score_desc. rewrite Ha, Hb. cbn.
  rewrite negb_involutive. apply Qle_bool_sub.
Qed.

Lemma score_then_name_trans a b c :
  score_then_name a b -> score_then_name b c -> score_then_name a c.
Proof.
  unfold score_then_name.
  intros [x [y [Ha [Hb H1]]]] [y' [z [Hb' [Hc H2]]]].
  rewrite Hb in Hb'. inversion Hb'; subst y'.
  exists x, z. split; [exact Ha|split; [exact Hc|]].
  destruct H1 as [H1|[H1 N1]], H2 as [H2|[H2 N2]].
  - left. exact (Qlt_trans _ _ _ H2 H1).
  - left. rewrite <- H2. exact H1.
  - left. rewrite H1. exact H2.
  - right. split; [rewrite H1; exact H2|exact (string_leb_trans _ _ _ N1 N2)].
Qed.

Lemma insert_score_then_name (x : SearchResult) (s : list SearchResult) :
  (exists q, similarity_score x = Fin q) ->
  Forall (fun y => exists q, similarity_score y = Fin q) s ->
  StronglySorted score_then_name s ->
  (forall y, In y s -> String.leb (r_name x) (r_name y) = true) ->
  StronglySorted score_then_name (insert_by by_score_desc x s).
Proof.
  intros [qx Hqx]. induction s as [|y s IH]; intros Hf Hs Hx; simpl.
  - repeat constructor.
  - apply StronglySorted_inv in Hs as [Hs Hy].
    inversion Hf as [|? ? [qy Hqy] Hf']; subst.
    rewrite (by_score_desc_fin x y qx qy Hqx Hqy).
    destruct (Qle_bool qy qx) eqn:E.
    + assert (Hxy : score_then_name x y).
      { exists qx, qy. split; [exact Hqx|split; [exact Hqy|]].
        apply Qle_bool_iff, Qle_lteq in E as [E|E]; [left; exact E|].
        right. split; [symmetry; exact E|apply Hx; left; reflexivity]. }
      constructor; [constructor; assumption|].
      constructor; [exact Hxy|]. rewrite Forall_forall in *.
      intros z Hz. exact (score_then_name_trans _ _ _ Hxy (Hy z Hz)).
    + constructor; [apply IH; [exact Hf'|exact Hs|intros z Hz; apply Hx; right; exact Hz]|].
      rewrite Forall_forall in *. intros z Hz.
      apply (Permutation_in _ (insert_by_perm _ _ _)) in Hz as [<-|Hz]; [|exact (Hy z Hz)].
      exists qy, qx. split; [exact Hqy|split; [exact Hqx|]].
      left. apply Qnot_le_lt. intro Hle. apply Qle_bool_iff in Hle. congruence.
Qed.

Lemma sort_score_then_name (l : list SearchResult) :
  Forall (fun y => exists q, similarity_score y = Fin q) l ->
  StronglySorted (fun a b => String.leb (r_name a) (r_name b) = true) l ->
  StronglySorted score_then_name (sort_by by_score_desc l).
Proof.
  intros Hf Hs. induction Hs as [|x l Hs IH Hx]; simpl; [constructor|].
  inversion Hf as [|? ? Hfx Hfl]; subst.
  apply insert_score_then_name; [exact Hfx| |exact (IH Hfl)|].
  - rewrite Forall_forall in *. intros y Hy. apply sort_by_In in Hy. exact (Hfl y Hy).
  - intros y Hy. apply sort_by_In in Hy. rewrite Forall_forall in Hx. exact (Hx y Hy).
Qed.

Lemma limit_rows_sorted {A} (R : A -> A -> Prop) be n (l rows : list A) :
  StronglySorted R l -> PostgREST.limit_rows be n l = Some rows -> StronglySorted R rows.
Proof.
  unfold PostgREST.limit_rows, SQL.limit. intro Hs.
  destruct (F64.int_param n) as [k|].
  - destruct (k <? 0)%Z; [discriminate|]. intro H; inversion H; subst.
    now apply StronglySorted_firstn.
  - destruct (be_limit_lenient be); [|discriminate]. intro H; inversion H; subst. exact Hs.
Qed.

Lemma select_sorted be f lim ms :
  PostgREST.select be f lim = Some ms ->
  StronglySorted (fun a b => PostgREST.by_name a b = true) ms.
Proof.
  assert (Hsort : forall l, StronglySorted (fun a b => PostgREST.by_name a b = true)
                                           (sort_by PostgREST.by_name l)).
  { intro l. apply sort_by_sorted.
    - intros a b E. unfold PostgREST.by_name in *.
      destruct (String.leb_total (m_name a) (m_name b)); congruence.
    - intros a b c. apply string_leb_trans. }
  unfold PostgREST.select, PostgREST.page.
  destruct f as [f|]; [destruct (PostgREST.row_filter f)|]; try discriminate;
    apply limit_rows_sorted, Hsort.
Qed.

Lemma text_sorted be q lim tr rs tr' :
  performTextSearch be q lim tr = (Ok rs, tr') -> StronglySorted score_then_name rs.
Proof.
  intro H. apply text_spec in H as [_ H]. destruct (H rs eq_refl) as [ms [Hs ->]].
  apply sort_score_then_name.
  - apply Forall_forall. intros r Hr. apply in_map_iff in Hr as [m [<- _]].
    eexists; reflexivity.
  - apply (StronglySorted_map (fun a b => PostgREST.by_name a b = true));
      [intros a b E; exact E|].
    exact (select_sorted _ _ _ _ Hs).
Qed.

(** ** Semantic search succeeding *)

Lemma serve_semantic_ok (be : Backend) (env : Env) (raw : string) (l : Limit)
    (qe : list Q) (rows : list MatchRow)
    (Henv : env_ok env = true)
    (Hlen : (3 <= JS.length (JS.trim raw))%nat)
    (Hemb : be_embed be (JS.trim raw) = Some qe)
    (Hrpc : be_rpc_error be = false)
    (Hmm : rpc_call be qe (F64.to_json (effective_limit l)) semantic_threshold = Some rows) :
  serve be env (post raw l) =
  (Ok (mkResponse 200 jsonHeaders
         (RSuccess (JS.trim raw) (map transform_match rows) (List.length rows) (now env))),
   [CallEmbed (JS.trim raw); CallRpc (F64.to_json (effective_limit l)) semantic_threshold]).
Proof.
  destruct raw as [|c raw0]; [simpl in Hlen; lia|].
  set (raw := String c raw0) in *.
  assert (Hsearch : search be (JS.trim raw) (effective_limit l) [] =
     (Ok (map transform_match rows),
      [CallEmbed (JS.trim raw); CallRpc (F64.to_json (effective_limit l)) semantic_threshold])).
  { unfold search, catch, performSemanticSearch, generateEmbedding, rpc_match_members,
      bind, emit, ret. rewrite Hemb, Hrpc, Hmm. destruct rows; reflexivity. }
  apply Nat.ltb_ge in Hlen.
  unfold serve, handler, handle_post, catch, bind, ret, post.
  cbn [req_method req_body String.eqb Ascii.eqb Bool.eqb negb]. rewrite Henv.
  cbv beta iota zeta. subst raw. rewrite Hlen. cbn [negb]. cbv beta.
  rewrite Hsearch. cbv beta iota. rewrite length_map. reflexivity.
Qed.

(** When the embedding is produced and [match_members] answers, the
    handler calls the embedding model and the RPC once each, never runs
    the text search, and answers 200 with the RPC rows turned into
    results, in the RPC's order. *)
Theorem semantic_success_skips_text_search (be : Backend) (env : Env) (raw : string)
    (l : Limit) (qe : list Q) (rows : list MatchRow)
    (Henv : env_ok env = true)
    (Hlen : (3 <= JS.length (JS.trim raw))%nat)
    (Hemb : be_embed be (JS.trim raw) = Some qe)
    (Hrpc : be_rpc_error be = false)
    (Hmm : rpc_call be qe (F64.to_json (effective_limit l)) semantic_threshold = Some rows) :
  serve be env (post raw l) =
  (Ok (mkResponse 200 jsonHeaders
         (RSuccess (JS.trim raw) (map transform_match rows) (List.length rows) (now env))),
   [CallEmbed (JS.trim raw); CallRpc (F64.to_json (effective_limit l)) semantic_threshold]).
Proof.
  exact (serve_semantic_ok be env raw l qe rows Henv Hlen Hemb Hrpc Hmm).
Qed.

Lemma semantic_success_skips_text_search_witness :
  exists rows,
    rpc_call (Sample.backend true false false) [1; 0]
      (F64.to_json (effective_limit LAbsent)) semantic_threshold = Some rows /\
    serve (Sample.backend true false false) Sample.env (post "react" LAbsent) =
    (Ok (mkResponse 200 jsonHeaders
           (RSuccess (JS.trim "react") (map transform_match rows) (List.length rows)
              (now Sample.env))),
     [CallEmbed (JS.trim "react");
      CallRpc (F64.to_json (effective_limit LAbsent)) semantic_threshold]).
Proof.
  destruct (rpc_call (Sample.backend true false false) [1; 0]
              (F64.to_json (effective_limit LAbsent)) semantic_threshold) as [rows|] eqn:Hm;
    [|vm_compute in Hm; discriminate].
  exists rows. split; [reflexivity|].
  assert (H1 : env_ok Sample.env = true) by reflexivity.
  assert (H2 : (3 <= JS.length (JS.trim "react"))%nat) by (vm_compute; lia).
  assert (H3 : be_embed (Sample.backend true false false) (JS.trim "react") = Some [1; 0])
    by reflexivity.
  assert (H4 : be_rpc_error (Sample.backend true false false) = false) by reflexivity.
  exact (semantic_success_skips_text_search _ _ _ _ _ _ H1 H2 H3 H4 Hm).
Defined.

(** Every result of [performSemanticSearch] is a member with a non-null
    embedding, keeps its id and name, has an empty team name turned into
    [undefined], and has a score that is NaN or at least the 0.1
    threshold. *)
Theorem semantic_results_meet_threshold (be : Backend) (q : string) (lim : Num)
    (tr : list Call) (rs : list SearchResult) (tr' : list Call)
    (H : performSemanticSearch be q lim tr = (Ok rs, tr')) :
  forall r, In r rs -> exists m, In m (be_members be) /\ m_embedding m <> None /\
    r_id r = m_id m /\ r_name r = m_name m /\
    r_team r = team_or_undefined (m_team m) /\
    (similarity_score r = NaN \/
     F64.ge (similarity_score r) (Fin semantic_threshold) = true).
Proof.
  apply semantic_spec in H as [_ H]. destruct (H rs eq_refl) as [qe [rows [Hm ->]]].
  apply rpc_call_members in Hm as [n Hm].
  apply match_members_rows in Hm as [_ Hrows].
  intros r Hr. apply in_map_iff in Hr as [row [<- Hrow]].
  destruct (Hrows row Hrow) as [e [Hin [He [_ [_ Ht]]]]].
  exists (mr_member row). repeat split; try assumption; try reflexivity.
  - rewrite He. discriminate.
  - cbn [transform_match similarity_score].
    apply pg_le_fin_ge in Ht as [Ht|Ht].
    + left. rewrite Ht. reflexivity.
    + right. rewrite ge_or_zero. exact Ht.
Qed.

Lemma semantic_results_meet_threshold_witness :
  exists rs tr',
    performSemanticSearch (Sample.backend true false false) "react" (Fin 10) [] = (Ok rs, tr') /\
    forall r, In r rs -> exists m, In m (be_members (Sample.backend true false false)) /\
      m_embedding m <> None /\ r_id r = m_id m /\ r_name r = m_name m /\
      r_team r = team_or_undefined (m_team m) /\
      (similarity_score r = NaN \/
       F64.ge (similarity_score r) (Fin semantic_threshold) = true).
Proof.
  destruct (performSemanticSearch (Sample.backend true false false) "react" (Fin 10) [])
    as [[rs|e] tr'] eqn:E; [|vm_compute in E; discriminate].
  exists rs, tr'. split; [reflexivity|].
  exact (semantic_results_meet_threshold _ _ _ _ _ _ E).
Defined.

(** A query without any piece longer than 2 characters sends no filter:
    with a non-negative integer limit, the text search returns the first
    [limit] members by name, in that order, each with score 0. *)
Theorem text_search_without_terms (be : Backend) (q : string) (z : Z) (tr : list Call)
    (Hterms : searchTerms q = []) (Hsel : be_select_error be = false) (Hz : (0 <= z)%Z) :
  let lim := Fin (inject_Z z) in
  let rs := map (score_member []) (firstn (Z.to_nat z)
                                    (sort_by PostgREST.by_name (be_members be))) in
  performTextSearch be q lim tr = (Ok rs, tr ++ [CallSelect None lim]) /\
  forall r, In r rs -> similarity_score r = Fin 0.
Proof.
  assert (Hsc : forall m, similarity_score (score_member [] m) = Fin 0) by reflexivity.
  intros lim rs. split.
  - unfold performTextSearch, bind, emit, ret. rewrite Hterms, Hsel.
    cbn [or_filter orConditions flat_map].
    unfold PostgREST.select, PostgREST.page, PostgREST.limit_rows. subst lim.
    rewrite int_param_inject. unfold SQL.limit.
    replace (z <? 0)%Z with false by (symmetry; apply Z.ltb_ge; exact Hz).
    rewrite sort_by_all_le; [reflexivity|].
    intros a b Ha Hb. apply in_map_iff in Ha as [ma [<- _]].
    apply in_map_iff in Hb as [mb [<- _]].
    unfold by_score_desc. rewrite !Hsc. reflexivity.
  - intros r Hr. apply in_map_iff in Hr as [m [<- _]]. apply Hsc.
Qed.

Lemma text_search_without_terms_witness :
  searchTerms "ab cd" = [] /\ be_select_error (Sample.backend true false false) = false /\
  (0 <= 2)%Z /\
  (let lim := Fin (inject_Z 2) in
   let rs := map (score_member []) (firstn (Z.to_nat 2)
               (sort_by PostgREST.by_name (be_members (Sample.backend true false false)))) in
   performTextSearch (Sample.backend true false false) "ab cd" lim [] =
     (Ok rs, [] ++ [CallSelect None lim]) /\
   forall r, In r rs -> similarity_score r = Fin 0).
Proof.
  assert (H1 : searchTerms "ab cd" = []) by reflexivity.
  assert (H2 : be_select_error (Sample.backend true false false) = false) by reflexivity.
  assert (H3 : (0 <= 2)%Z) by lia.
  split; [exact H1|split; [exact H2|split; [exact H3|]]].
  exact (text_search_without_terms _ _ _ [] H1 H2 H3).
Defined.

(** The text search results are ordered by descending score and, among
    equal scores, by name: the sort by score is stable over the rows
    PostgREST returns ordered by name. *)
Theorem text_results_by_score_then_name (be : Backend) (q : string) (lim : Num)
    (tr : list Call) (rs : list SearchResult) (tr' : list Call)
    (H : performTextSearch be q lim tr = (Ok rs, tr')) :
  StronglySorted score_then_name rs.
Proof. exact (text_sorted _ _ _ _ _ _ H). Qed.

Lemma text_results_by_score_then_name_witness :
  exists rs tr',
    performTextSearch (Sample.backend true false false) "react developer" (Fin 10) [] =
      (Ok rs, tr') /\ StronglySorted score_then_name rs.
Proof.
  destruct (performTextSearch (Sample.backend true false false) "react developer" (Fin 10) [])
    as [[rs|e] tr'] eqn:E; [|vm_compute in E; discriminate].
  exists rs, tr'. split; [reflexivity|].
  exact (text_results_by_score_then_name _ _ _ _ _ _ E).
Defined.

(** The text search does not depend on the case of the query. *)
Theorem text_search_ignores_query_case (be : Backend) (q : string) (lim : Num)
    (tr : list Call) :
  performTextSearch be (JS.toLowerCase q) lim tr = performTextSearch be q lim tr.
Proof.
  unfold performTextSearch, searchTerms. rewrite toLowerCase_idempotent. reflexivity.
Qed.

(** Repeated terms count once per occurrence: a query written twice
    gives every member twice the raw text score, capped at 1. *)
Theorem repeated_query_doubles_text_score (q : string) (m : MemberRow) :
  exists s, similarity_score (score_member (searchTerms (q ++ " " ++ q)%string) m) = Fin s /\
    s == Qmin (2 * text_score (searchTerms q) (memberText m)) 1.
Proof.
  eexists; split; [reflexivity|].
  rewrite min1_Qmin, searchTerms_repeat. unfold text_score.
  rewrite !text_score_count, filter_app, length_app, Nat2Z.inj_add, inject_Z_plus.
  apply Q.min_compat; [|reflexivity]. ring.
Qed.

(** Without the Supabase environment variables, every POST is answered
    500 with [Missing Supabase environment variables], whatever its body,
    and no call is made. *)
Theorem missing_env_answers_500 (be : Backend) (env : Env) (b : ReqBody)
    (Henv : env_ok env = false) :
  serve be env (mkRequest "POST" b) =
  (Ok (mkResponse 500 jsonHeaders
         (RFailure "Missing Supabase environment variables" (now env))), []).
Proof.
  unfold serve, handler, handle_post, catch, throw.
  cbn [req_method req_body String.eqb Ascii.eqb Bool.eqb negb]. rewrite Henv. reflexivity.
Qed.

Lemma missing_env_answers_500_witness :
  env_ok (mkEnv false "2025-06-26T00:00:00.000Z") = false /\
  serve (Sample.backend true false false) (mkEnv false "2025-06-26T00:00:00.000Z")
    (mkRequest "POST" (BodyObject (Some "react") LAbsent)) =
  (Ok (mkResponse 500 jsonHeaders
         (RFailure "Missing Supabase environment variables" "2025-06-26T00:00:00.000Z")), []).
Proof.
  assert (H : env_ok (mkEnv false "2025-06-26T00:00:00.000Z") = false) by reflexivity.
  split; [exact H|].
  exact (missing_env_answers_500 _ _ (BodyObject (Some "react") LAbsent) H).
Defined.

(** The JSON body [null] is not caught by the validation: reading its
    [query] throws, and the handler answers 500 without any call. *)
Theorem null_body_answers_500 (be : Backend) (env : Env) (Henv : env_ok env = true) :
  serve be env (mkRequest "POST" BodyNull) =
  (Ok (mkResponse 500 jsonHeaders
         (RFailure "Cannot read properties of null (reading 'query')" (now env))), []).
Proof.
  unfold serve, handler, handle_post, catch, throw.
  cbn [req_method req_body String.eqb Ascii.eqb Bool.eqb negb]. rewrite Henv. reflexivity.
Qed.

Lemma null_body_answers_500_witness :
  env_ok Sample.env = true /\
  serve (Sample.backend true false false) Sample.env (mkRequest "POST" BodyNull) =
  (Ok (mkResponse 500 jsonHeaders
         (RFailure "Cannot read properties of null (reading 'query')" (now Sample.env))), []).
Proof.
  assert (H : env_ok Sample.env = true) by reflexivity.
  split; [exact H|]. exact (null_body_answers_500 _ _ H).
Defined.

(** The calls of one request: none, or the embedding of the trimmed
    query followed by the RPC, by the select, or by both, in that order,
    with the request's effective limit (written [null] to the RPC when it
    is not finite); each service is called at most once. *)
Theorem serve_call_sequence (be : Backend) (env : Env) (req : Request) :
  snd (serve be env req) = [] \/
  exists raw l, req_method req = "POST" /\ req_body req = BodyObject (Some raw) l /\
    let q := JS.trim raw in
    let lim := effective_limit l in
    (snd (serve be env req) = [CallEmbed q; CallRpc (F64.to_json lim) semantic_threshold] \/
     snd (serve be env req) = [CallEmbed q; CallSelect (or_filter (searchTerms q)) lim] \/
     snd (serve be env req) =
       [CallEmbed q; CallRpc (F64.to_json lim) semantic_threshold;
        CallSelect (or_filter (searchTerms q)) lim]).
Proof.
  unfold serve, handler, handle_post, catch, bind, ret, throw.
  destruct req as [meth b]; cbn [req_method req_body].
  destruct (String.eqb meth "OPTIONS"); [left; reflexivity|].
  destruct (String.eqb meth "POST") eqn:Hp; simpl; [|left; reflexivity].
  apply String.eqb_eq in Hp. subst meth.
  destruct (env_ok env); simpl; [|left; reflexivity].
  destruct b as [| |[[|c raw0]|] l]; try (left; reflexivity).
  set (raw := String c raw0).
  destruct (JS.length (JS.trim raw) <? 3)%nat; [left; reflexivity|].
  right. exists raw, l. split; [reflexivity|split; [reflexivity|]]. cbv zeta.
  unfold search, catch, throw.
  destruct (performSemanticSearch be (JS.trim raw) (effective_limit l) []) as [r1 tr1] eqn:H1.
  apply semantic_trace in H1 as [[-> [e ->]]| ->].
  - destruct (performTextSearch be (JS.trim raw) (effective_limit l) _)
      as [[rs2|e2] tr2] eqn:H2; apply text_trace in H2; subst tr2; right; left; reflexivity.
  - destruct r1 as [rs1|e1]; [left; reflexivity|].
    destruct (performTextSearch be (JS.trim raw) (effective_limit l) _)
      as [[rs2|e2] tr2] eqn:H2; apply text_trace in H2; subst tr2; right; right; reflexivity.
Qed.

(** ** A limit that is not a number *)

(** When [limit || 10] is -Infinity or NaN (a limit of [-1e999], or a
    truthy value that [Math.min] turns into NaN, such as a non-numeric
    string), the effective limit is not finite and reaches the RPC as
    [null]: [match_members] runs with [LIMIT NULL], and a successful
    semantic search returns every member that passes the threshold. *)
Theorem non_finite_limit_uncapped (be : Backend) (env : Env) (raw : string)
    (l : Limit) (qe : list Q)
    (Henv : env_ok env = true)
    (Hlen : (3 <= JS.length (JS.trim raw))%nat)
    (Hl : or_10 l = NegInf \/ or_10 l = NaN)
    (Hemb : be_embed be (JS.trim raw) = Some qe)
    (Hrpc : be_rpc_error be = false) :
  let rows := sort_by SQL.by_distance
                (flat_map (SQL.match_row be qe semantic_threshold) (be_members be)) in
  serve be env (post raw l) =
  (Ok (mkResponse 200 jsonHeaders
         (RSuccess (JS.trim raw) (map transform_match rows) (List.length rows) (now env))),
   [CallEmbed (JS.trim raw); CallRpc None semantic_threshold]).
Proof.
  intro rows.
  assert (Hj : F64.to_json (effective_limit l) = None)
    by (unfold effective_limit; destruct Hl as [E|E]; rewrite E; reflexivity).
  assert (Hmm : rpc_call be qe (F64.to_json (effective_limit l)) semantic_threshold
                = Some rows) by (rewrite Hj; reflexivity).
  pose proof (serve_semantic_ok be env raw l qe rows Henv Hlen Hemb Hrpc Hmm) as E.
  rewrite Hj in E. exact E.
Qed.

Lemma non_finite_limit_uncapped_witness :
  env_ok Sample.env = true /\ (3 <= JS.length (JS.trim "react"))%nat /\
  (or_10 (LOther true NaN) = NegInf \/ or_10 (LOther true NaN) = NaN) /\
  be_embed (Sample.backend true false false) (JS.trim "react") = Some [1; 0] /\
  be_rpc_error (Sample.backend true false false) = false /\
  (let rows := sort_by SQL.by_distance
                 (flat_map (SQL.match_row (Sample.backend true false false) [1; 0]
                              semantic_threshold)
                           (be_members (Sample.backend true false false))) in
   serve (Sample.backend true false false) Sample.env (post "react" (LOther true NaN)) =
   (Ok (mkResponse 200 jsonHeaders
          (RSuccess (JS.trim "react") (map transform_match rows) (List.length rows)
             (now Sample.env))),
    [CallEmbed (JS.trim "react"); CallRpc None semantic_threshold])).
Proof.
  assert (H1 : env_ok Sample.env = true) by reflexivity.
  assert (H2 : (3 <= JS.length (JS.trim "react"))%nat) by (vm_compute; lia).
  assert (H3 : or_10 (LOther true NaN) = NegInf \/ or_10 (LOther true NaN) = NaN)
    by (right; reflexivity).
  assert (H4 : be_embed (Sample.backend true false false) (JS.trim "react") = Some [1; 0])
    by reflexivity.
  assert (H5 : be_rpc_error (Sample.backend true false false) = false) by reflexivity.
  repeat (split; [assumption|]).
  exact (non_finite_limit_uncapped _ _ _ _ _ H1 H2 H3 H4 H5).
Defined.

(** ** Order and range without all-zero vectors *)

Lemma StronglySorted_map_in {A B} (R : A -> A -> Prop) (S : B -> B -> Prop)
    (f : A -> B) (l : list A) :
  (forall a b, In a l -> In b l -> R a b -> S (f a) (f b)) ->
  StronglySorted R l -> StronglySorted S (map f l).
Proof.
  intros HRS Hs. induction Hs as [|x l Hs IH Hf]; simpl; constructor.
  - apply IH. intros a b Ha Hb. apply HRS; right; assumption.
  - rewrite Forall_forall in *. intros y Hy.
    apply in_map_iff in Hy as [z [<- Hz]].
    apply HRS; [left; reflexivity|right; exact Hz|exact (Hf z Hz)].
Qed.

Lemma ge_or_zero_r (x y : Num) : F64.ge x (or_zero y) = F64.ge x y.
Proof.
  destruct y as [q| | |]; simpl; try reflexivity.
  destruct (Qeq_bool q 0) eqn:E; [|reflexivity].
  apply Qeq_bool_iff in E. destruct x as [r| | |]; simpl; try reflexivity.
  apply Qle_bool_compat; [now symmetry|reflexivity].
Qed.

Lemma text_score_nonneg (terms : list string) (text : string) :
  0 <= text_score terms text.
Proof.
  unfold text_score. rewrite text_score_count, Qplus_0_l.
  apply Qmult_le_0_compat; [discriminate|].
  unfold Qle; simpl. lia.
Qed.

Lemma min1_range (x : Q) : 0 <= x -> 0 <= JS.min1 x <= 1.
Proof.
  intro Hx. unfold JS.min1. destruct (Qle_bool x 1) eqn:H.
  - apply Qle_bool_iff in H. now split.
  - split; discriminate.
Qed.

Section NoZeroVector.

Variable be : Backend.

(** pgvector's cosine distance between any query embedding and any
    stored one is a number, and not negative: no vector is all zeros. *)
Hypothesis Hdist : forall text qe, be_embed be text = Some qe ->
  forall m e, In m (be_members be) -> m_embedding m = Some e ->
  exists d, be_dist be e qe = Fin d /\ 0 <= d.

Lemma semantic_sorted_in_unit q lim tr rs tr' :
  performSemanticSearch be q lim tr = (Ok rs, tr') ->
  StronglySorted score_desc rs /\ forall r, In r rs -> in_unit (similarity_score r).
Proof.
  intro H. apply semantic_ok_embed in H as [qe [rows [Hq [Hm ->]]]].
  apply rpc_call_members in Hm as [n Hm].
  apply match_members_rows in Hm as [Hs Hrows].
  assert (Hfin : forall row, In row rows -> exists d,
             distance row = Fin d /\ 0 <= d /\
             match_score row = Fin (1 - d) /\ semantic_threshold <= 1 - d).
  { intros row Hr. destruct (Hrows row Hr) as [e [Hin [He [Hd [Hsc Ht]]]]].
    destruct (Hdist _ _ Hq _ _ Hin He) as [d [Ed Hd0]].
    rewrite Hd, Ed in Hsc. rewrite Hsc in Ht. cbn in Ht. apply Qle_bool_iff in Ht.
    exists d. rewrite Hd, Ed. auto. }
  split.
  - refine (StronglySorted_map_in _ _ _ _ _ Hs). intros a b Ha Hb Hab.
    destruct (Hfin a Ha) as [da [Ea [_ [Sa _]]]], (Hfin b Hb) as [db [Eb [_ [Sb _]]]].
    rewrite Ea, Eb in Hab. cbn in Hab. apply Qle_bool_iff in Hab.
    unfold score_desc. cbn [transform_match similarity_score].
    rewrite ge_or_zero, ge_or_zero_r, Sa, Sb. cbn. apply Qle_bool_iff. lra.
  - intros r Hr. apply in_map_iff in Hr as [row [<- Hr]].
    destruct (Hfin row Hr) as [d [_ [Hd0 [Sd Ht]]]].
    cbn [transform_match similarity_score]. rewrite Sd. unfold or_zero.
    unfold semantic_threshold in Ht.
    destruct (Qeq_bool (1 - d) 0).
    + exists 0. split; [reflexivity|]. split; lra.
    + exists (1 - d). split; [reflexivity|]. split; lra.
Qed.

Lemma text_sorted_in_unit q lim tr rs tr' :
  performTextSearch be q lim tr = (Ok rs, tr') ->
  StronglySorted score_desc rs /\ forall r, In r rs -> in_unit (similarity_score r).
Proof.
  intro H. split.
  - rewrite <- (map_id rs).
    apply (StronglySorted_map score_then_name); [|exact (text_sorted _ _ _ _ _ _ H)].
    intros a b [x [y [Ha [Hb Hxy]]]]. unfold score_desc, id. rewrite Ha, Hb. cbn.
    apply Qle_bool_iff. destruct Hxy as [Hxy|[Hxy _]]; lra.
  - apply text_spec in H as [_ H]. destruct (H rs eq_refl) as [ms [_ ->]].
    intros r Hr. apply sort_by_In, in_map_iff in Hr as [m [<- _]].
    eexists; split; [reflexivity|]. apply min1_range, text_score_nonneg.
Qed.

Lemma search_sorted_in_unit q lim tr rs tr' :
  search be q lim tr = (Ok rs, tr') ->
  StronglySorted score_desc rs /\ forall r, In r rs -> in_unit (similarity_score r).
Proof.
  unfold search, catch, throw.
  destruct (performSemanticSearch be q lim tr) as [[rs1|e1] tr1] eqn:H1.
  - intro H; inversion H; subst. exact (semantic_sorted_in_unit _ _ _ _ _ H1).
  - destruct (performTextSearch be q lim tr1) as [[rs2|e2] tr2] eqn:H2;
      intro H; inversion H; subst.
    exact (text_sorted_in_unit _ _ _ _ _ H2).
Qed.

End NoZeroVector.

(** When pgvector's distance between every query embedding and every
    stored embedding is a non-negative number (no vector is all zeros),
    every successful response lists its results by non-increasing score,
    each score in [[0, 1]], on the semantic and on the text path. *)
Theorem results_ordered_without_zero_vectors (be : Backend) (env : Env) (req : Request)
    (s : Z) (h : list (string * string)) (q : string) (rs : list SearchResult)
    (n : nat) (ts : string) (tr : list Call)
    (Hdist : forall text qe, be_embed be text = Some qe ->
       forall m e, In m (be_members be) -> m_embedding m = Some e ->
       exists d, be_dist be e qe = Fin d /\ 0 <= d)
    (H : serve be env req = (Ok (mkResponse s h (RSuccess q rs n ts)), tr)) :
  StronglySorted score_desc rs /\ forall r, In r rs -> in_unit (similarity_score r).
Proof.
  apply serve_spec in H as [_ [_ H]].
  destruct (H _ _ _ _ _ _ eq_refl) as [raw [l [_ [_ [_ [_ [_ [_ [tr' Hs]]]]]]]]].
  exact (search_sorted_in_unit be Hdist _ _ _ _ _ Hs).
Qed.

Lemma Sample_dist_ok : forall text qe,
  be_embed (Sample.backend true false false) text = Some qe ->
  forall m e, In m (be_members (Sample.backend true false false)) -> m_embedding m = Some e ->
  exists d, be_dist (Sample.backend true false false) e qe = Fin d /\ 0 <= d.
Proof.
  intros text qe Hq m e Hm He. cbn in Hq. inversion Hq; subst qe.
  cbn in Hm. destruct Hm as [<-|[<-|[<-|[]]]]; cbn in He; inversion He; subst e.
  - exists 1. split; [reflexivity|]. lra.
  - exists 0. split; [reflexivity|]. lra.
Qed.

Lemma results_ordered_without_zero_vectors_witness :
  exists rs tr,
    serve (Sample.backend true false false) Sample.env (post "React developer" LAbsent)
      = (Ok (mkResponse 200 jsonHeaders
               (RSuccess "React developer" rs 1 (now Sample.env))), tr) /\
    StronglySorted score_desc rs /\ forall r, In r rs -> in_unit (similarity_score r).
Proof.
  eexists; eexists.
  assert (Hs : serve (Sample.backend true false false) Sample.env
                 (post "React developer" LAbsent)
               = (Ok (mkResponse 200 jsonHeaders
                        (RSuccess "React developer"
                           [transform_match (mkMatchRow Sample.alice (SQL.one_minus (Fin 0))
                                                        (Fin 0))] 1
                           (now Sample.env))),
                  [CallEmbed "React developer"; CallRpc (Some 10) semantic_threshold]))
    by (vm_compute; reflexivity).
  split; [exact Hs|].
  exact (results_ordered_without_zero_vectors _ _ _ _ _ _ _ _ _ _ Sample_dist_ok Hs).
Defined.

(* ------------------------------------------------------------------ *)
(** ** The search page *)

(** The page against the function: a query shorter than 3 UTF-16 units
    sends nothing and clears the results; any other sends one request and
    ends not searching, with at most 10 results, and either no error or
    no results. *)
Theorem client_search_state (be : Backend) (env : Env) (query : string)
    (st : Client.ClientState) :
  let res := Client.performSearch (fun r => fst (serve be env r)) query st in
  ((JS.length query < 3)%nat ->
     snd res = [] /\ Client.searchResults (fst res) = [] /\
     Client.hasSearched (fst res) = false) /\
  ((3 <= JS.length query)%nat ->
     snd res = [Client.search_request query] /\
     Client.isSearching (fst res) = false /\ Client.hasSearched (fst res) = true /\
     (List.length (Client.searchResults (fst res)) <= 10)%nat /\
     (Client.searchError (fst res) = None \/ Client.searchResults (fst res) = [])).
Proof.
  intro res. subst res. unfold Client.performSearch.
  split; intro Hq.
  - apply Nat.ltb_lt in Hq. rewrite Hq. simpl. auto.
  - apply Nat.ltb_ge in Hq. rewrite Hq.
    destruct (Client.outcome (fst (serve be env (Client.search_request query))))
      as [rs|msg] eqn:Ho; cbn [fst snd Client.searchResults Client.searchError
                                   Client.isSearching Client.hasSearched];
      [|repeat split; [simpl; lia|right; reflexivity]].
    enough (Hrs : (List.length rs <= 10)%nat) by (repeat split; auto).
    destruct (serve be env (Client.search_request query)) as [r tr] eqn:Hs.
    simpl in Ho. apply serve_spec in Hs as [_ [_ Hsucc]].
    unfold Client.outcome in Ho.
    destruct r as [[s h b]|e]; [|discriminate].
    destruct (negb (Client.resp_ok _)); [discriminate|].
    cbn [body] in Ho. destruct b; try discriminate. inversion Ho; subst results.
    destruct (Hsucc _ _ _ _ _ _ eq_refl) as [raw [l [_ [Hb [_ [_ [_ [_ [tr' Hse]]]]]]]]].
    cbn [Client.search_request req_body] in Hb. inversion Hb; subst l.
    apply (search_length _ _ _ 10%Z) in Hse; [lia|reflexivity].
Qed.

(** A query of at least 3 UTF-16 units whose trimmed text is shorter is
    still sent by the page; the function answers 400 and the page ends
    with no results and the error [Search failed: 400]. *)
Theorem client_blank_padded_query_fails (be : Backend) (env : Env) (query : string)
    (st : Client.ClientState)
    (Henv : env_ok env = true)
    (Hlong : (3 <= JS.length query)%nat)
    (Hshort : (JS.length (JS.trim query) < 3)%nat) :
  Client.performSearch (fun r => fst (serve be env r)) query st =
  (Client.mkClientState [] false (Some "Search failed: 400") true,
   [Client.search_request query]).
Proof.
  unfold Client.performSearch.
  replace (JS.length query <? 3)%nat with false by (symmetry; apply Nat.ltb_ge; exact Hlong).
  assert (Hresp : exists msg, fst (serve be env (Client.search_request query)) =
                              Ok (bad_request msg)).
  { unfold serve, handler, handle_post, catch, bind, ret, throw, Client.search_request.
    cbn [req_method req_body String.eqb Ascii.eqb Bool.eqb negb]. rewrite Henv. cbn [negb].
    destruct (JS.trim query) as [|c t] eqn:Et; [eexists; reflexivity|].
    pose proof (trim_length (String c t)) as Hle.
    replace (JS.length (JS.trim (String c t)) <? 3)%nat with true
      by (symmetry; apply Nat.ltb_lt; lia).
    eexists; reflexivity. }
  destruct Hresp as [msg ->]. reflexivity.
Qed.

Lemma client_blank_padded_query_fails_witness :
  env_ok Sample.env = true /\ (3 <= JS.length "ab ")%nat /\
  (JS.length (JS.trim "ab ") < 3)%nat /\
  Client.performSearch (fun r => fst (serve (Sample.backend true false false) Sample.env r))
    "ab " (Client.mkClientState [] false None false) =
  (Client.mkClientState [] false (Some "Search failed: 400") true,
   [Client.search_request "ab "]).
Proof.
  assert (H1 : env_ok Sample.env = true) by reflexivity.
  assert (H2 : (3 <= JS.length "ab ")%nat) by (vm_compute; lia).
  assert (H3 : (JS.length (JS.trim "ab ") < 3)%nat) by (vm_compute; lia).
  split; [exact H1|split; [exact H2|split; [exact H3|]]].
  exact (client_blank_padded_query_fails _ _ _ _ H1 H2 H3).
Defined.

(** Trimming on the page changes nothing for the function: unless the
    query is all white space, the page's request is answered exactly as
    the untrimmed query with limit 10 would be. *)
Theorem page_trim_preserves_response (be : Backend) (env : Env) (query : string)
    (Hq : JS.trim query <> EmptyString) :
  serve be env (Client.search_request query) = serve be env (post query (LNum (Fin 10))).
Proof.
  unfold serve, handler, handle_post, Client.search_request, post.
  cbn [req_method req_body].
  destruct (String.eqb "POST" "OPTIONS"); [reflexivity|].
  destruct (negb (String.eqb "POST" "POST")); [reflexivity|].
  destruct (env_ok env); cbn [negb]; [|reflexivity].
  rewrite trim_idempotent.
  destruct (JS.trim query) as [|c t] eqn:Et; [congruence|].
  destruct query as [|c0 q0]; [discriminate|]. reflexivity.
Qed.

Lemma page_trim_preserves_response_witness :
  JS.trim " react " <> EmptyString /\
  serve (Sample.backend true false false) Sample.env (Client.search_request " react ") =
  serve (Sample.backend true false false) Sample.env (post " react " (LNum (Fin 10))).
Proof.
  assert (H : JS.trim " react " <> EmptyString) by (vm_compute; discriminate).
  split; [exact H|]. exact (page_trim_preserves_response _ _ _ H).
Defined.

(** A file is only ever selected when it is a JPEG or PNG of at most
    5 MiB: [handleFileSelect] and [clearFileSelection] keep the selection
    valid, and a rejected file leaves the selection as it was. *)
Theorem file_selection_stays_valid (st : Upload.UploadState)
    (Hst : valid_selection st) :
  (forall file url, valid_selection (Upload.handleFileSelect file url st)) /\
  valid_selection (Upload.clearFileSelection st) /\
  (forall f url, Upload.selectedFile (Upload.handleFileSelect (Some f) url st) <> Some f ->
     Upload.selectedFile (Upload.handleFileSelect (Some f) url st) = Upload.selectedFile st /\
     Upload.uploadError (Upload.handleFileSelect (Some f) url st) <> None).
Proof.
  split; [|split; [exact I|]].
  - intros [f|] url; [|exact Hst]. unfold Upload.handleFileSelect.
    destruct (existsb (String.eqb (Upload.file_type f)) Upload.allowedTypes) eqn:Ht;
      cbn [negb]; [|exact Hst].
    destruct (Upload.maxSize <? Upload.file_size f)%Z eqn:Hs; [exact Hst|].
    unfold valid_selection; cbn [Upload.selectedFile]. split.
    + apply existsb_exists in Ht as [t [Hin Heq]]. apply String.eqb_eq in Heq.
      now rewrite Heq.
    + apply Z.ltb_ge in Hs. exact Hs.
  - intros f url. unfold Upload.handleFileSelect.
    destruct (negb _); [cbn; split; [reflexivity|discriminate]|].
    destruct (Upload.maxSize <? Upload.file_size f)%Z;
      [cbn; split; [reflexivity|discriminate]|].
    cbn. intro H. exfalso. exact (H eq_refl).
Qed.

Lemma file_selection_stays_valid_witness :
  valid_selection (Upload.mkUploadState None None None false) /\
  ((forall file url, valid_selection
       (Upload.handleFileSelect file url (Upload.mkUploadState None None None false))) /\
   valid_selection (Upload.clearFileSelection (Upload.mkUploadState None None None false)) /\
   (forall f url,
      Upload.selectedFile (Upload.handleFileSelect (Some f) url
                             (Upload.mkUploadState None None None false)) <> Some f ->
      Upload.selectedFile (Upload.handleFileSelect (Some f) url
                             (Upload.mkUploadState None None None false)) =
        Upload.selectedFile (Upload.mkUploadState None None None false) /\
      Upload.uploadError (Upload.handleFileSelect (Some f) url
                            (Upload.mkUploadState None None None false)) <> None)).
Proof.
  assert (H : valid_selection (Upload.mkUploadState None None None false)) by exact I.
  split; [exact H|]. exact (file_selection_stays_valid _ H).
Defined.
